(** * fpga-sdrlib: the reference computations and checks of the QA harness

    A shallow embedding of the Python helpers of
    [python/fpga_sdrlib/fft/qa_fft.py] and
    [python/fpga_sdrlib/filterbank/qa_filterbank.py], and of the assertions
    their unit tests make on the values captured from the simulator.

    Numbers.  The harness works on Python floats and complex floats.  Their
    arithmetic is modelled exactly: a real is a canonical rational [Qc], a
    complex sample a pair of them.  Rounding of floating point is not
    modelled.  [convolve] only adds and multiplies, and is kept generic in
    the number type.  Python integers used as indices, lengths and metadata
    are [Z].

    Errors.  A Python exception is a [Raise] in the [result] monad. *)

From Stdlib Require Import ZArith List Lia Bool QArith Qcanon Qcabs.
From Stdlib Require Import Reals Lra.
Import ListNotations.

(** ** Exceptions and the error monad *)

Inductive exn : Type :=
| IndexError
| TypeError
| ZeroDivisionError.

Inductive result (A : Type) : Type :=
| Ok (a : A)
| Raise (e : exn).

Arguments Ok {A} a.
Arguments Raise {A} e.

Definition bind {A B : Type} (m : result A) (k : A -> result B) : result B :=
  match m with
  | Ok a => k a
  | Raise e => Raise e
  end.

Notation "x <- m ;; k" := (bind m (fun x => k))
  (at level 61, m at next level, right associativity).

(** A [for] loop whose body may raise: the state is threaded through the
    iterations, the first exception ends the loop. *)
Fixpoint py_for {S A : Type} (xs : list A) (body : S -> A -> result S) (s : S)
  : result S :=
  match xs with
  | [] => Ok s
  | x :: xs' => s' <- body s x ;; py_for xs' body s'
  end.

(** A list comprehension [[f x for x in xs]] whose element expression may
    raise. *)
Fixpoint py_comprehension {A B : Type} (f : A -> result B) (xs : list A)
  : result (list B) :=
  match xs with
  | [] => Ok []
  | x :: xs' => y <- f x ;; ys <- py_comprehension f xs' ;; Ok (y :: ys)
  end.

(** ** Python list primitives *)

Definition len {A : Type} (xs : list A) : Z := Z.of_nat (length xs).

(** [range(start, stop)]: empty when [stop <= start]. *)
Definition py_range (start stop : Z) : list Z :=
  map (fun k => (start + Z.of_nat k)%Z) (seq 0 (Z.to_nat (stop - start))).

(** [xs[i]]: a negative index counts from the end, an index outside the list
    raises [IndexError]. *)
Definition py_getitem {A : Type} (xs : list A) (i : Z) : result A :=
  let k := if (i <? 0)%Z then (i + len xs)%Z else i in
  if (k <? 0)%Z then Raise IndexError
  else match nth_error xs (Z.to_nat k) with
       | Some x => Ok x
       | None => Raise IndexError
       end.

(** [xs * n]: [n] copies of [xs], none when [n <= 0]. *)
Definition py_mul {A : Type} (xs : list A) (n : Z) : list A :=
  concat (repeat xs (Z.to_nat n)).

(** [xs[start:stop]] for indices [0 <= start], [0 <= stop]. *)
Definition py_slice {A : Type} (xs : list A) (start stop : nat) : list A :=
  skipn start (firstn stop xs).

(** [xs[start::step]] for [0 <= start] and [1 <= step]: the elements at
    [start], [start + step], [start + 2 * step], ...  [skip] counts the
    elements still to pass over before the next one is taken. *)
Fixpoint every_nth {A : Type} (step skip : nat) (xs : list A) : list A :=
  match xs with
  | [] => []
  | x :: xs' =>
      match skip with
      | O => x :: every_nth step (step - 1) xs'
      | S skip' => every_nth step skip' xs'
      end
  end.

Definition py_slice_step {A : Type} (xs : list A) (start step : Z) : list A :=
  every_nth (Z.to_nat step) (Z.to_nat start) xs.

Local Open Scope Qc_scope.

(** ** qa_filterbank.py: [convolve] *)

(** [convolve] is written for any Python numbers.  It uses the integer 0
    (to pad, and to start each sum), [+] and [*]. *)
Class Number (A : Type) : Type := {
  num_zero : A;
  num_add : A -> A -> A;
  num_mul : A -> A -> A
}.

#[global] Instance Qc_Number : Number Qc :=
  {| num_zero := 0; num_add := Qcplus; num_mul := Qcmult |}.

Definition convolve {A : Type} `{Number A} (data taps : list A)
  : result (list A) :=
  let out := [] in
  let data := py_mul [num_zero] (len taps - 1) ++ data in
  py_for (py_range (len taps - 1) (len data))
    (fun out i =>
       let v := num_zero in
       v <- py_for (py_range 0 (len taps))
              (fun v j =>
                 d <- py_getitem data (i - j) ;;
                 t <- py_getitem taps j ;;
                 Ok (num_add v (num_mul d t)))
              v ;;
       Ok (out ++ [v]))
    out.

(** The sum [((0 + f 0) + f 1) + ... + f (n-1)]. *)
Fixpoint sum_upto {A : Type} `{Number A} (n : nat) (f : nat -> A) : A :=
  match n with
  | O => num_zero
  | S n' => num_add (sum_upto n' f) (f n')
  end.

(** [data] left-padded with [n] zeros. *)
Definition zero_padded {A : Type} `{Number A} (n : nat) (data : list A)
  : list A :=
  repeat num_zero n ++ data.

(** The [i]-th value of the sliding-window weighted sum of [data] with
    [taps]: the sum over [j] of [padded[len(taps)-1+i-j] * taps[j]]. *)
Definition window_sum {A : Type} `{Number A} (data taps : list A) (i : nat)
  : A :=
  let padded := zero_padded (length taps - 1) data in
  sum_upto (length taps)
    (fun j =>
       num_mul (nth (length taps - 1 + i - j) padded num_zero)
         (nth j taps num_zero)).

(** ** qa_filterbank.py: [scale_taps] *)

Definition Qcltb (x y : Qc) : bool :=
  match x ?= y with
  | Lt => true
  | _ => false
  end.

(** [sum(xs)]: the running total starts at 0 and adds from the left. *)
Definition py_sum (xs : list Qc) : Qc := fold_left Qcplus xs 0.

(** [t / m] on reals: true division, [ZeroDivisionError] on a zero divisor. *)
Definition py_div (t m : Qc) : result Qc :=
  if Qc_eq_bool m 0 then Raise ZeroDivisionError else Ok (t / m).

(** [sum([abs(x) for x in taps])]. *)
Definition sum_abs (taps : list Qc) : Qc := py_sum (map Qcabs taps).

(** The body of the loop over [tapss]. *)
Definition update_max (maxabsintegral : Qc) (taps : list Qc) : Qc :=
  let absintegral := sum_abs taps in
  if Qcltb maxabsintegral absintegral then absintegral else maxabsintegral.

Definition scale_taps (tapss : list (list Qc)) : result (list (list Qc) * Qc) :=
  let maxabsintegral := 0 in
  let maxabsintegral := fold_left update_max tapss maxabsintegral in
  scaledtaps <-
    py_comprehension
      (fun taps => py_comprehension (fun t => py_div t maxabsintegral) taps)
      tapss ;;
  Ok (scaledtaps, maxabsintegral).

(** Tap lists to try the statements on: the largest sum of absolute values
    is 4, reached by the first list. *)
Definition some_tapss : list (list Qc) :=
  [ [1; - Q2Qc 3]; [Q2Qc (1 # 2)]%list; [] ].

(** ** qa_fft.py: [prune_zeros] *)

Section PruneZeros.

Variable A : Type.

(** The test [x != 0] of the loop. *)
Variable nonzero : A -> bool.

(** [enumerate(xs)]. *)
Definition enumerate (xs : list A) : list (nat * A) :=
  combine (seq 0 (length xs)) xs.

(** One iteration of the loop on the pair [(start_index, stop_index)];
    [None] is Python's [None]. *)
Definition prune_zeros_step (st : option nat * option nat) (ix : nat * A)
  : option nat * option nat :=
  let (start_index, stop_index) := st in
  let (i, x) := ix in
  if nonzero x then
    (match start_index with
     | None => Some i
     | Some _ => start_index
     end, Some i)
  else (start_index, stop_index).

(** [stop_index + 1] on [None] would raise [TypeError]. *)
Definition prune_zeros (xs : list A) : result (list A) :=
  let (start_index, stop_index) :=
    fold_left prune_zeros_step (enumerate xs) (None, None) in
  match start_index with
  | None => Ok []
  | Some start =>
      match stop_index with
      | Some stop => Ok (py_slice xs start (stop + 1))
      | None => Raise TypeError
      end
  end.

(** What the loop has found after running over [xs]: nothing when every
    element is zero, and otherwise the bounds of the part [r] of [xs] that
    starts and ends with a nonzero element. *)
Inductive found (xs : list A) : option nat * option nat -> Prop :=
| found_none :
    Forall (fun x => nonzero x = false) xs -> found xs (None, None)
| found_some (pre r suf : list A) (x : A) :
    xs = pre ++ r ++ suf ->
    Forall (fun x => nonzero x = false) pre ->
    Forall (fun x => nonzero x = false) suf ->
    hd_error r = Some x ->
    nonzero x = true ->
    nonzero (last r x) = true ->
    found xs (Some (length pre), Some (length pre + length r - 1)%nat).

End PruneZeros.

Arguments enumerate {A} xs.
Arguments prune_zeros_step {A} nonzero st ix.
Arguments prune_zeros {A} nonzero xs.
Arguments found {A} nonzero xs _.

(** ** Values compared by the tests *)

(** A complex sample, as captured from the simulator. *)
Record complex : Type := Complex { real : Qc; imag : Qc }.

(** The Python values the assertions receive: integers (lengths, metadata,
    the first-filter marker), floats (reference values of the filterbank)
    and complex numbers (samples). *)
Inductive pyval : Type :=
| VInt (z : Z)
| VFloat (x : Qc)
| VComplex (c : complex).

(** Python's numeric coercion to complex. *)
Definition to_complex (v : pyval) : complex :=
  match v with
  | VInt z => Complex (Q2Qc (inject_Z z)) 0
  | VFloat x => Complex x 0
  | VComplex c => c
  end.

Definition complex_sub (a b : complex) : complex :=
  Complex (real a - real b) (imag a - imag b).

Definition complex_add (a b : complex) : complex :=
  Complex (real a + real b) (imag a + imag b).

Definition complex_mul (a b : complex) : complex :=
  Complex (real a * real b - imag a * imag b)
    (real a * imag b + imag a * real b).

#[global] Instance complex_Number : Number complex :=
  {| num_zero := Complex 0 0; num_add := complex_add;
     num_mul := complex_mul |}.

(** The square of [abs(c)]. *)
Definition abs_sq (c : complex) : Qc :=
  real c * real c + imag c * imag c.

Definition complex_eqb (a b : complex) : bool :=
  Qc_eq_bool (real a) (real b) && Qc_eq_bool (imag a) (imag b).

(** [first == second] on numbers. *)
Definition py_eq (first second : pyval) : bool :=
  complex_eqb (to_complex first) (to_complex second).

(** [10 ** (2 * places)]. *)
Definition pow100 (places : Z) : Qc :=
  if (places <? 0)%Z then / (Q2Qc 100 ^ Z.to_nat (- places))
  else Q2Qc 100 ^ Z.to_nat places.

(** [round(x, places) == 0] for [x = abs(d) >= 0], on exact reals: [x]
    scaled by [10 ** places] lies below one half.  The comparison is made on
    the squares. *)
Definition rounds_to_zero (d : complex) (places : Z) : bool :=
  Qcltb (abs_sq d * pow100 places) (Q2Qc (1 # 4)).

(** ** unittest assertions *)

Inductive assertion : Type :=
| AssertEqual (first second : pyval)
| AssertAlmostEqual (first second : pyval) (places : Z).

(** Whether the assertion passes.  [assertAlmostEqual] passes when the two
    values are equal, or when [round(abs(second - first), places) == 0]. *)
Definition holds (a : assertion) : bool :=
  match a with
  | AssertEqual first second => py_eq first second
  | AssertAlmostEqual first second places =>
      py_eq first second
      || rounds_to_zero (complex_sub (to_complex second) (to_complex first))
           places
  end.

Inductive verdict : Type :=
| Pass
| Fail
| Error (e : exn).

(** A test body first computes its reference values, which may raise, and
    then makes its assertions in order; the first one that does not hold
    fails the test. *)
Definition run (body : result (list assertion)) : verdict :=
  match body with
  | Raise e => Error e
  | Ok assertions => if forallb holds assertions then Pass else Fail
  end.

(** [for r, e in zip(rs, es): self.assertAlmostEqual(r, e, places)]. *)
Definition assert_all_almost_equal (rs es : list pyval) (places : Z)
  : list assertion :=
  map (fun re => AssertAlmostEqual (fst re) (snd re) places) (combine rs es).

(** [for r, e in zip(rs, es): self.assertEqual(r, e)]. *)
Definition assert_all_equal (rs es : list Z) : list assertion :=
  map (fun re => AssertEqual (VInt (fst re)) (VInt (snd re))) (combine rs es).

(** ** qa_filterbank.py: [TestFilterbank.test_simple] *)

(** What the test reads from the test bench after the simulation. *)
Record FilterbankTestBench : Type := {
  output : list complex;
  out_ms : list Z;
  out_ff : list Z
}.

(** [float(i) / n_data]. *)
Definition py_float_div (i n : Z) : Qc := Q2Qc (inject_Z i) / Q2Qc (inject_Z n).

(** The expected first-filter signals: [([1] + [0]*(n_filters-1))*n_data]. *)
Definition first_filter_signals (n_filters n_data : Z) : list Z :=
  py_mul ([1%Z] ++ py_mul [0%Z] (n_filters - 1)) n_data.

(** The three comparisons that end each filterbank test. *)
Definition compare_to_expected (received : list (list complex))
  (expected : list (list Qc)) (tb : FilterbankTestBench) (ms ffs : list Z)
  : list assertion :=
  flat_map
    (fun rs_es =>
       assert_all_almost_equal (map VComplex (fst rs_es))
         (map VFloat (snd rs_es)) 3)
    (combine received expected)
  ++ [AssertEqual (VInt (len (out_ms tb))) (VInt (len ms))]
  ++ assert_all_equal (out_ms tb) ms
  ++ [AssertEqual (VInt (len (out_ff tb))) (VInt (len ffs))]
  ++ assert_all_equal (out_ff tb) ffs.

(** [taps] of [test_simple]. *)
Definition test_simple_taps : list (list Qc) :=
  [ [1; 0; 0; 0];
    [0; 1; 0; 0];
    [Q2Qc (1 # 2); Q2Qc (1 # 2); 0; 0];
    [0; 0; Q2Qc (1 # 2); Q2Qc (1 # 2)] ].

(** [data] of [test_simple], built by
    [for i in range(n_data): data += [float(i)/n_data]*len(taps)]. *)
Definition test_simple_data (n_data : Z) (taps : list (list Qc)) : list Qc :=
  flat_map (fun i => py_mul [py_float_div i n_data] (len taps))
    (py_range 0 n_data).

(** The metadata [ms] is drawn from the random generator and the test bench
    [tb] holds what the simulator produced: both are inputs here. *)
Definition test_simple (ms : list Z) (tb : FilterbankTestBench)
  : result (list assertion) :=
  let taps := test_simple_taps in
  let n_filters := len taps in
  let n_data := 10%Z in
  let data := test_simple_data n_data taps in
  let ffs := first_filter_signals n_filters n_data in
  let input_streams :=
    map (fun i => py_slice_step data i n_filters) (py_range 0 n_filters) in
  let received :=
    map (fun i => py_slice_step (output tb) i n_filters)
      (py_range 0 n_filters) in
  expected <-
    py_comprehension (fun dt => convolve (fst dt) (snd dt))
      (combine input_streams taps) ;;
  Ok (compare_to_expected received expected tb ms ffs).

(** ** qa_fft.py: [TestDIT.test_one] and [TestStage.test_one] *)

(** What the tests read from a test bench after [tb.run(steps)]. *)
Record TestBench : Type := { out_samples : list complex }.

(** [expected = in_samples] *)
Definition TestDIT_expected {A : Type} (in_samples : list A) : list A :=
  in_samples.

Definition TestStage_expected {A : Type} (in_samples : list A) : list A :=
  in_samples.

(** The body of the loop [for tb, steps in (...)] after [tb.run(steps)]. *)
Definition confirm_data (expected : list complex) (tb : TestBench)
  : list assertion :=
  AssertEqual (VInt (len (out_samples tb))) (VInt (len expected))
  :: map (fun re => AssertAlmostEqual (VComplex (snd re)) (VComplex (fst re)) 3)
       (combine (out_samples tb) expected).

(** The input samples are random; the two Icarus test benches hold what the
    simulator produced. *)
Definition TestDIT_test_one (in_samples : list complex)
  (tb_icarus_inner tb_icarus_outer : TestBench) : list assertion :=
  let expected := TestDIT_expected in_samples in
  flat_map (confirm_data expected) [tb_icarus_inner; tb_icarus_outer].

Definition TestStage_test_one (in_samples : list complex)
  (tb_icarus_inner tb_icarus_outer tb_b100 : TestBench) : list assertion :=
  let expected := TestStage_expected in_samples in
  flat_map (confirm_data expected) [tb_icarus_inner; tb_icarus_outer; tb_b100].

(** ** Vocabulary of the statements on the tests *)

(** Whether a value is a sample or a reference value for one, rather than an
    integer. *)
Definition is_sample (v : pyval) : bool :=
  match v with
  | VInt _ => false
  | VFloat _ => true
  | VComplex _ => true
  end.

(** An assertion on samples is an approximate one to 3 places; an exact one
    is on integers. *)
Definition tolerant_on_samples (a : assertion) : Prop :=
  match a with
  | AssertEqual first second =>
      is_sample first = false /\ is_sample second = false
  | AssertAlmostEqual first second places => places = 3%Z
  end.

(** The captured sample [r] agrees with [e] to 3 places. *)
Definition almost_equal_3 (r e : complex) : Prop :=
  holds (AssertAlmostEqual (VComplex e) (VComplex r) 3) = true.

(** What [confirm_data] asks of a test bench. *)
Definition agrees_with (expected : list complex) (tb : TestBench) : Prop :=
  length (out_samples tb) = length expected /\
  Forall2 almost_equal_3 (out_samples tb) expected.

(** A run to try the statements on: the output of an exact filterbank,
    sample [p] being the value of filter [p mod 4] at time [p / 4], with the
    metadata passed through and the first filter marked. *)
Definition exact_output : list complex :=
  let taps := test_simple_taps in
  let data := test_simple_data 10 taps in
  map (fun p =>
         let k := (p mod 4)%nat in
         Complex (window_sum (py_slice_step data (Z.of_nat k) 4)
                    (nth k taps []) (p / 4)) 0)
    (seq 0 40).

Definition exact_bench (ms : list Z) : FilterbankTestBench :=
  {| output := exact_output; out_ms := ms;
     out_ff := first_filter_signals 4 10 |}.

Definition some_ms : list Z := py_mul [1; 0; 0; 1; 1]%Z 8.

(** ** The reference the specification names for the FFT tests

    The repository has no FFT routine.  The definitions of this module follow
    the words of the specification, "a numerically computed FFT reference",
    on exact complex numbers over the reals of the Standard Library. *)

Module FFTReference.

Local Open Scope R_scope.

Record Rcomplex : Type := RComplex { Re : R; Im : R }.

Definition Rc_zero : Rcomplex := RComplex 0 0.

Definition Rc_one : Rcomplex := RComplex 1 0.

Definition Rc_add (a b : Rcomplex) : Rcomplex :=
  RComplex (Re a + Re b) (Im a + Im b).

Definition Rc_mul (a b : Rcomplex) : Rcomplex :=
  RComplex (Re a * Re b - Im a * Im b) (Re a * Im b + Im a * Re b).

(** The twiddle factor [exp(-2 pi i k / N)]. *)
Definition twiddle (N k : nat) : Rcomplex :=
  RComplex (cos (2 * PI * INR k / INR N)) (- sin (2 * PI * INR k / INR N)).

(** Bin [k] of the [N]-point discrete Fourier transform of the first [N]
    samples of [x]: the sum over [n < N] of [x[n] * exp(-2 pi i n k / N)].
    Samples past the end of [x] count as zero. *)
Definition dft_bin (N : nat) (x : list Rcomplex) (k : nat) : Rcomplex :=
  fold_right Rc_add Rc_zero
    (map (fun n => Rc_mul (nth n x Rc_zero) (twiddle N (n * k))) (seq 0 N)).

(** The [N]-point transform of a stream, block after block: output [m] is
    bin [m mod N] of the block number [m / N]. *)
Definition fft_reference (N : nat) (in_samples : list Rcomplex)
  : list Rcomplex :=
  map (fun m => dft_bin N (skipn (N * (m / N)) in_samples) (m mod N))
    (seq 0 (length in_samples)).

(** The samples the tests draw are [random.random()*2-1 +
    random.random()*2j-1j] with [random.random()] at least 0 and below 1:
    both parts are at least -1 and below 1. *)
Definition drawable (c : Rcomplex) : Prop :=
  (-1 <= Re c < 1) /\ (-1 <= Im c < 1).

(** The sample [-1+0j] (draws [0] and [1/2]) followed by zeros (draws [1/2]
    and [1/2]), [n] samples in all. *)
Definition drawn_impulse (n : nat) : list Rcomplex :=
  match n with
  | O => []
  | S n' => RComplex (-1) 0 :: repeat Rc_zero n'
  end.

End FFTReference.

(** * The driver of the test bench and the random-input test *)

(** ** qa_filterbank.py: [FilterbankTestBench.get_first_filter] *)

(** The two signals the driver reads at a rising edge of the clock. *)
Record clock_edge : Type := { out_nd : bool; first_filter : Z }.

(** The body of [run], on the list [self.out_ff]:
    [if self.out_nd: self.out_ff.append(int(self.first_filter))]. *)
Definition get_first_filter_run (self_out_ff : list Z) (edge : clock_edge)
  : list Z :=
  if out_nd edge then self_out_ff ++ [first_filter edge] else self_out_ff.

(** [__init__] sets [self.out_ff = []] and registers the driver, which then
    runs at every rising edge of the simulation. *)
Definition get_first_filter (edges : list clock_edge) : list Z :=
  fold_left get_first_filter_run edges [].

(** ** qa_filterbank.py: [TestFilterbank.atest_randominput] *)

(** A real tap next to a complex sample: Python converts it to a complex
    number before it multiplies. *)
Definition complex_of_float (t : Qc) : complex := Complex t 0.

(** The three comparisons that end the test, with complex reference
    values. *)
Definition compare_to_expected_complex (received expected : list (list complex))
  (tb : FilterbankTestBench) (ms ffs : list Z) : list assertion :=
  flat_map
    (fun rs_es =>
       assert_all_almost_equal (map VComplex (fst rs_es))
         (map VComplex (snd rs_es)) 3)
    (combine received expected)
  ++ [AssertEqual (VInt (len (out_ms tb))) (VInt (len ms))]
  ++ assert_all_equal (out_ms tb) ms
  ++ [AssertEqual (VInt (len (out_ff tb))) (VInt (len ffs))]
  ++ assert_all_equal (out_ff tb) ffs.

(** The samples [data], the metadata [ms] and the [taps] are drawn from the
    random generator and the test bench [tb] holds what the simulator
    produced, once lines 199-200 have built and simulated it: all four are
    inputs here.  An exception of the bench itself is not modelled. *)
Definition atest_randominput (data : list complex) (ms : list Z)
  (taps : list (list Qc)) (tb : FilterbankTestBench)
  : result (list assertion) :=
  let n_filters := 5%Z in
  let n_data := 50%Z in
  let ffs := first_filter_signals n_filters n_data in
  scaled <- scale_taps taps ;;
  let chantaps := fst scaled in
  let tapsscalefactor := snd scaled in
  let received :=
    map (fun i => py_slice_step (output tb) i n_filters)
      (py_range 0 n_filters) in
  let input_streams :=
    map (fun i => py_slice_step data i n_filters) (py_range 0 n_filters) in
  expected <-
    py_comprehension
      (fun dt => convolve (fst dt) (map complex_of_float (snd dt)))
      (combine input_streams chantaps) ;;
  Ok (compare_to_expected_complex received expected tb ms ffs).

(** ** Vocabulary of the further statements *)

(** The list of the values [a * x + b * y] for [x], [y] taken side by side
    from two lists. *)
Definition linear_combination (a b : Qc) (xs ys : list Qc) : list Qc :=
  map (fun xy => a * fst xy + b * snd xy) (combine xs ys).

(** A list that starts and ends with a nonzero element, or is empty. *)
Definition trimmed {A : Type} (nonzero : A -> bool) (r : list A) : Prop :=
  match r with
  | [] => True
  | x :: _ => nonzero x = true /\ nonzero (last r x) = true
  end.

(** The bench [tb] with its sample output cut after [n] samples. *)
Definition truncated (n : nat) (tb : FilterbankTestBench)
  : FilterbankTestBench :=
  {| output := firstn n (output tb);
     out_ms := out_ms tb;
     out_ff := out_ff tb |}.

(** The reference values of [test_simple], filter by filter: the value of
    filter [i] at time [k] is the real part of sample [i + 4 * k] of the
    exact output. *)
Definition reference_values : list (list Qc) :=
  map (fun i =>
         map (fun k => real (nth (i + 4 * k) exact_output (Complex 0 0)))
           (seq 0 10))
    (seq 0 4).

(** Inputs of the shape [atest_randominput] draws, to try the statements
    on: 250 complex samples with parts in [-1, 1), 250 metadata values
    below 128, and 5 filters of 10 taps in [-1, 1). *)
Definition some_samples : list complex :=
  map (fun k =>
         Complex (Q2Qc ((Z.of_nat k mod 7 - 3) # 4))
           (Q2Qc ((Z.of_nat k mod 5 - 2) # 3)))
    (seq 0 250).

Definition some_ms_250 : list Z :=
  map (fun k => (Z.of_nat k * 37 mod 128)%Z) (seq 0 250).

Definition some_taps_5x10 : list (list Qc) :=
  map (fun i =>
         map (fun x => Q2Qc ((Z.of_nat (i + 2 * x) mod 5 - 2) # 4))
           (seq 0 10))
    (seq 0 5).

(** The output of an exact filterbank with the scaled taps, sample [p]
    being the value of filter [p mod 5] at time [p / 5], with the metadata
    passed through and the first filter marked. *)
Definition exact_randominput_bench (data : list complex) (ms : list Z)
  (taps : list (list Qc)) : FilterbankTestBench :=
  let chantaps :=
    match scale_taps taps with
    | Ok scaled => fst scaled
    | Raise _ => []
    end in
  {| output :=
       map (fun p =>
              let k := (p mod 5)%nat in
              window_sum (py_slice_step data (Z.of_nat k) 5)
                (map complex_of_float (nth k chantaps [])) (p / 5))
         (seq 0 (length data));
     out_ms := ms;
     out_ff := first_filter_signals 5 50 |}.

(** * Properties *)

(** ** The error monad and the list primitives *)

Lemma py_for_app {S A : Type} (xs ys : list A) (body : S -> A -> result S)
  (s : S) :
  py_for (xs ++ ys) body s = (s' <- py_for xs body s ;; py_for ys body s').
Proof.
  revert s; induction xs as [|x xs IH]; intros s; simpl; [reflexivity|].
  destruct (body s x); simpl; auto.
Qed.

Lemma py_range_length (start stop : Z) :
  length (py_range start stop) = Z.to_nat (stop - start).
Proof. unfold py_range. now rewrite length_map, length_seq. Qed.

Lemma py_range_nat (start : Z) (n : nat) :
  py_range start (start + Z.of_nat n)
  = map (fun k => (start + Z.of_nat k)%Z) (seq 0 n).
Proof.
  unfold py_range.
  replace (start + Z.of_nat n - start)%Z with (Z.of_nat n) by lia.
  now rewrite Nat2Z.id.
Qed.

Lemma py_range_succ (start : Z) (n : nat) :
  py_range start (start + Z.of_nat (S n))
  = py_range start (start + Z.of_nat n) ++ [(start + Z.of_nat n)%Z].
Proof. rewrite !py_range_nat, seq_S, map_app. reflexivity. Qed.

Lemma py_getitem_nth {A : Type} (xs : list A) (k : nat) (d : A) :
  (k < length xs)%nat -> py_getitem xs (Z.of_nat k) = Ok (nth k xs d).
Proof.
  intros Hk. unfold py_getitem.
  destruct (Z.ltb_spec (Z.of_nat k) 0) as [Hneg|_]; [lia|].
  destruct (Z.ltb_spec (Z.of_nat k) 0) as [Hneg|_]; [lia|].
  rewrite Nat2Z.id.
  destruct (nth_error xs k) as [x|] eqn:E.
  - now rewrite (nth_error_nth _ _ d E).
  - apply nth_error_None in E. lia.
Qed.

Lemma py_mul_singleton {A : Type} (x : A) (n : Z) :
  py_mul [x] n = repeat x (Z.to_nat n).
Proof.
  unfold py_mul. induction (Z.to_nat n) as [|k IH]; simpl; [reflexivity|].
  now rewrite IH.
Qed.

Lemma nth_map_seq {A : Type} (f : nat -> A) (n i : nat) (d : A) :
  (i < n)%nat -> nth i (map f (seq 0 n)) d = f i.
Proof.
  intros Hi. rewrite nth_indep with (d' := f 0%nat)
    by now rewrite length_map, length_seq.
  now rewrite map_nth, seq_nth.
Qed.

(** ** [convolve] *)

Section Convolve.

Context {A : Type} `{Number A}.

Variables data taps : list A.

(** The padded list of the second line of [convolve]. *)
Let padded : list A := py_mul [num_zero] (len taps - 1) ++ data.

Lemma padded_zero_padded :
  padded = zero_padded (length taps - 1) data.
Proof.
  unfold padded, zero_padded. rewrite py_mul_singleton.
  replace (Z.to_nat (len taps - 1)) with (length taps - 1)%nat
    by (unfold len; lia).
  reflexivity.
Qed.

(** The inner loop, run for the first [n] taps at position [i]. *)
Lemma convolve_inner (i n : nat) :
  (n <= length taps)%nat ->
  (length taps - 1 <= i < length padded)%nat ->
  py_for (py_range 0 (Z.of_nat n))
    (fun v j =>
       d <- py_getitem padded (Z.of_nat i - j) ;;
       t <- py_getitem taps j ;;
       Ok (num_add v (num_mul d t)))
    num_zero
  = Ok (sum_upto n
          (fun j => num_mul (nth (i - j) padded num_zero)
                      (nth j taps num_zero))).
Proof.
  intros Hn Hi. induction n as [|n IH]; [reflexivity|].
  change (Z.of_nat (S n)) with (0 + Z.of_nat (S n))%Z.
  rewrite py_range_succ, py_for_app. simpl Z.add.
  rewrite IH by lia. simpl.
  replace (Z.of_nat i - Z.of_nat n)%Z with (Z.of_nat (i - n)) by lia.
  rewrite (py_getitem_nth padded _ num_zero) by lia.
  rewrite (py_getitem_nth taps _ num_zero) by lia.
  reflexivity.
Qed.

(** The outer loop over any positions inside the padded list. *)
Lemma convolve_outer (positions : list nat) (out : list A) :
  Forall (fun i => (length taps - 1 <= i < length padded)%nat) positions ->
  py_for (map Z.of_nat positions)
    (fun out i =>
       v <- py_for (py_range 0 (len taps))
              (fun v j =>
                 d <- py_getitem padded (i - j) ;;
                 t <- py_getitem taps j ;;
                 Ok (num_add v (num_mul d t)))
              num_zero ;;
       Ok (out ++ [v]))
    out
  = Ok (out ++ map (fun i =>
                      sum_upto (length taps)
                        (fun j => num_mul (nth (i - j) padded num_zero)
                                    (nth j taps num_zero)))
                positions).
Proof.
  intros Hall. revert out.
  induction Hall as [|i positions Hi _ IH]; intros out; simpl.
  - now rewrite app_nil_r.
  - unfold len at 1. rewrite convolve_inner by lia. simpl.
    rewrite IH, <- app_assoc. reflexivity.
Qed.

(** C1.  For non-empty [taps], [convolve data taps] returns a list with as
    many elements as [data], whose [i]-th element is the sum over [j] of
    [padded[len(taps)-1+i-j] * taps[j]], where [padded] is [data] behind
    [len(taps)-1] zeros. *)
Theorem convolve_sliding_window :
  taps <> [] ->
  exists out,
    convolve data taps = Ok out /\
    length out = length data /\
    forall i, (i < length data)%nat ->
      nth i out num_zero
      = sum_upto (length taps)
          (fun j =>
             num_mul
               (nth (length taps - 1 + i - j)
                  (zero_padded (length taps - 1) data) num_zero)
               (nth j taps num_zero)).
Proof.
  intros Htaps.
  assert (Hlen : (1 <= length taps)%nat)
    by (destruct taps; [congruence | simpl; lia]).
  set (positions :=
         map (fun k => (length taps - 1 + k)%nat) (seq 0 (length data))).
  exists (map (fun i =>
                 sum_upto (length taps)
                   (fun j =>
                      num_mul
                        (nth (i - j) (zero_padded (length taps - 1) data)
                           num_zero)
                        (nth j taps num_zero)))
            positions).
  split; [|split].
  - unfold convolve.
    pose proof padded_zero_padded as Hpad. unfold padded in Hpad.
    assert (Hrange :
      py_range (len taps - 1) (len (py_mul [num_zero] (len taps - 1) ++ data))
      = map Z.of_nat positions).
    { rewrite Hpad. unfold zero_padded, len.
      rewrite length_app, repeat_length.
      replace (Z.of_nat (length taps - 1 + length data))
        with (Z.of_nat (length taps) - 1 + Z.of_nat (length data))%Z by lia.
      rewrite py_range_nat. unfold positions. rewrite map_map.
      apply map_ext. intros k. lia. }
    rewrite Hrange.
    pose proof (convolve_outer positions []) as Hout.
    unfold padded in Hout. rewrite Hout.
    + rewrite Hpad. reflexivity.
    + rewrite Hpad. unfold positions, zero_padded.
      apply Forall_forall. intros i Hi. apply in_map_iff in Hi.
      destruct Hi as [k [<- Hk]]. apply in_seq in Hk.
      rewrite length_app, repeat_length. lia.
  - unfold positions. now rewrite !length_map, length_seq.
  - intros i Hi. unfold positions.
    rewrite map_map, nth_map_seq by assumption. reflexivity.
Qed.

End Convolve.

Lemma convolve_sliding_window_witness :
  [Q2Qc 1; Q2Qc 10] <> [] /\
  exists out,
    convolve [Q2Qc 1; Q2Qc 2; Q2Qc 3] [Q2Qc 1; Q2Qc 10] = Ok out /\
    length out = 3%nat /\
    forall i, (i < 3)%nat ->
      nth i out 0 = window_sum [Q2Qc 1; Q2Qc 2; Q2Qc 3] [Q2Qc 1; Q2Qc 10] i.
Proof.
  assert (Htaps : [Q2Qc 1; Q2Qc 10] <> []) by discriminate.
  split; [exact Htaps|].
  exact (convolve_sliding_window [Q2Qc 1; Q2Qc 2; Q2Qc 3] [Q2Qc 1; Q2Qc 10]
           Htaps).
Defined.

Example convolve_1_10 :
  match convolve [Q2Qc 1; Q2Qc 2; Q2Qc 3; Q2Qc 4] [Q2Qc 1; Q2Qc 10] with
  | Ok out => map this out = [1; 12; 23; 34]%Q
  | Raise _ => False
  end.
Proof. vm_compute. reflexivity. Qed.

(** Complex samples through real taps, as [atest_randominput] calls it. *)
Example convolve_complex :
  match
    convolve [Complex 1 (Q2Qc 2); Complex (Q2Qc 3) (Q2Qc 4)]
      [Complex (Q2Qc (1 # 2)) 0; Complex (Q2Qc (1 # 2)) 0]
  with
  | Ok out =>
      map (fun c => (this (real c), this (imag c))) out
      = [(1 # 2, 1); (2, 3)]%Q
  | Raise _ => False
  end.
Proof. vm_compute. reflexivity. Qed.

(** Without taps the loop runs once more than there are samples. *)
Example convolve_no_taps :
  convolve [Q2Qc 1; Q2Qc 2] [] = Ok [0; 0; 0].
Proof. reflexivity. Qed.

(** ** [scale_taps] *)

Lemma Qcltb_lt (x y : Qc) : Qcltb x y = true <-> x < y.
Proof.
  unfold Qcltb. rewrite Qclt_alt.
  destruct (x ?= y); split; intros H; congruence.
Qed.

Lemma Qcltb_ge (x y : Qc) : Qcltb x y = false <-> y <= x.
Proof.
  split; intros H.
  - apply Qcnot_lt_le. intros Hlt. apply Qcltb_lt in Hlt. congruence.
  - destruct (Qcltb x y) eqn:E; [|reflexivity].
    apply Qcltb_lt in E. now apply Qcle_not_lt in H.
Qed.

Lemma Qc_eq_bool_true (x y : Qc) : Qc_eq_bool x y = true <-> x = y.
Proof.
  split; [apply Qc_eq_bool_correct|].
  intros ->. unfold Qc_eq_bool. destruct (Qc_eq_dec y y); congruence.
Qed.

Lemma Qc_eq_bool_false (x y : Qc) : Qc_eq_bool x y = false <-> x <> y.
Proof.
  rewrite <- Qc_eq_bool_true. destruct (Qc_eq_bool x y); split; congruence.
Qed.

Lemma Qc_pos_neq_0 (m : Qc) : 0 < m -> m <> 0.
Proof. intros Hm. apply not_eq_sym, Qclt_not_eq, Hm. Qed.

Lemma fold_left_Qcplus (xs : list Qc) (a : Qc) :
  fold_left Qcplus xs a = a + py_sum xs.
Proof.
  unfold py_sum. revert a. induction xs as [|x xs IH]; intros a; simpl.
  - ring.
  - rewrite IH, (IH (0 + x)). ring.
Qed.

Lemma py_sum_cons (x : Qc) (xs : list Qc) : py_sum (x :: xs) = x + py_sum xs.
Proof. unfold py_sum at 1. simpl. rewrite fold_left_Qcplus. ring. Qed.

Lemma sum_abs_cons (t : Qc) (taps : list Qc) :
  sum_abs (t :: taps) = Qcabs t + sum_abs taps.
Proof. unfold sum_abs. simpl. apply py_sum_cons. Qed.

Lemma sum_abs_nonneg (taps : list Qc) : 0 <= sum_abs taps.
Proof.
  induction taps as [|t taps IH];
    [unfold sum_abs, py_sum; simpl; apply Qcle_refl|].
  rewrite sum_abs_cons.
  replace 0 with (0 + 0) by ring.
  apply Qcplus_le_compat; [apply Qcabs_nonneg | exact IH].
Qed.

Lemma sum_abs_zero (taps : list Qc) :
  Forall (fun t => t = 0) taps -> sum_abs taps = 0.
Proof.
  induction 1 as [|t taps Ht _ IH]; [reflexivity|].
  rewrite sum_abs_cons, IH, Ht. reflexivity.
Qed.

Lemma sum_abs_pos (taps : list Qc) :
  Exists (fun t => t <> 0) taps -> 0 < sum_abs taps.
Proof.
  induction 1 as [t taps Ht | t taps _ IH]; rewrite sum_abs_cons.
  - apply Qclt_le_trans with (Qcabs t).
    + destruct (Qcle_lt_or_eq _ _ (Qcabs_nonneg t)) as [H|H]; [exact H|].
      symmetry in H. apply Qcabs_null in H. contradiction.
    + rewrite <- (Qcplus_0_r (Qcabs t)) at 1.
      apply Qcplus_le_compat; [apply Qcle_refl | apply sum_abs_nonneg].
  - apply Qclt_le_trans with (sum_abs taps); [exact IH|].
    rewrite <- (Qcplus_0_l (sum_abs taps)) at 1.
    apply Qcplus_le_compat; [apply Qcabs_nonneg | apply Qcle_refl].
Qed.

(** The loop keeps a running maximum: the result bounds the initial value
    and every sum seen, and is one of them. *)
Lemma fold_update_max_ge_init (tapss : list (list Qc)) (m : Qc) :
  m <= fold_left update_max tapss m.
Proof.
  revert m. induction tapss as [|taps tapss IH]; intros m; simpl.
  - apply Qcle_refl.
  - apply Qcle_trans with (update_max m taps); [|apply IH].
    unfold update_max. destruct (Qcltb m (sum_abs taps)) eqn:E.
    + apply Qclt_le_weak. now apply Qcltb_lt.
    + apply Qcle_refl.
Qed.

Lemma fold_update_max_upper (tapss : list (list Qc)) (m : Qc) :
  Forall (fun taps => sum_abs taps <= fold_left update_max tapss m) tapss.
Proof.
  revert m. induction tapss as [|taps tapss IH]; intros m; simpl; constructor.
  - apply Qcle_trans with (update_max m taps);
      [|apply fold_update_max_ge_init].
    unfold update_max. destruct (Qcltb m (sum_abs taps)) eqn:E.
    + apply Qcle_refl.
    + now apply Qcltb_ge.
  - apply IH.
Qed.

Lemma fold_update_max_attained (tapss : list (list Qc)) (m : Qc) :
  fold_left update_max tapss m = m
  \/ In (fold_left update_max tapss m) (map sum_abs tapss).
Proof.
  revert m. induction tapss as [|taps tapss IH]; intros m; simpl.
  - now left.
  - destruct (IH (update_max m taps)) as [H|H]; [|now right; right].
    rewrite H. unfold update_max.
    destruct (Qcltb m (sum_abs taps)); [right; now left | now left].
Qed.

(** From 0 and on a non-empty list, the loop computes the maximum of the
    sums. *)
Lemma fold_update_max_is_max (tapss : list (list Qc)) :
  tapss <> [] ->
  In (fold_left update_max tapss 0) (map sum_abs tapss).
Proof.
  intros Hne.
  destruct (fold_update_max_attained tapss 0) as [H|H]; [|exact H].
  destruct tapss as [|taps tapss]; [congruence|].
  left. rewrite H.
  pose proof (fold_update_max_upper (taps :: tapss) 0) as Hup.
  rewrite H in Hup. inversion Hup as [|? ? Hle _]; subst.
  apply Qcle_antisym; [exact Hle | apply sum_abs_nonneg].
Qed.

Lemma fold_update_max_pos (tapss : list (list Qc)) :
  Exists (Exists (fun t => t <> 0)) tapss ->
  0 < fold_left update_max tapss 0.
Proof.
  intros Hex. apply Exists_exists in Hex. destruct Hex as [taps [Hin Hnz]].
  apply Qclt_le_trans with (sum_abs taps); [now apply sum_abs_pos|].
  pose proof (fold_update_max_upper tapss 0) as Hup.
  rewrite Forall_forall in Hup. now apply Hup.
Qed.

Lemma fold_update_max_zero (tapss : list (list Qc)) :
  Forall (Forall (fun t => t = 0)) tapss ->
  fold_left update_max tapss 0 = 0.
Proof.
  induction 1 as [|taps tapss Hz _ IH]; simpl; [reflexivity|].
  unfold update_max at 2. rewrite (sum_abs_zero _ Hz).
  replace (Qcltb 0 0) with false by reflexivity. exact IH.
Qed.

(** The two comprehensions succeed when the divisor is not zero. *)
Lemma comprehension_div (m : Qc) (taps : list Qc) :
  m <> 0 ->
  py_comprehension (fun t => py_div t m) taps = Ok (map (fun t => t / m) taps).
Proof.
  intros Hm. induction taps as [|t taps IH]; simpl; [reflexivity|].
  unfold py_div at 1. apply Qc_eq_bool_false in Hm. rewrite Hm. simpl.
  now rewrite IH.
Qed.

Lemma comprehension_div_all (m : Qc) (tapss : list (list Qc)) :
  m <> 0 ->
  py_comprehension
    (fun taps => py_comprehension (fun t => py_div t m) taps) tapss
  = Ok (map (map (fun t => t / m)) tapss).
Proof.
  intros Hm. induction tapss as [|taps tapss IH]; simpl; [reflexivity|].
  rewrite comprehension_div by assumption. simpl. now rewrite IH.
Qed.

(** With a zero divisor they succeed when there is nothing to divide, and
    raise at the first tap otherwise. *)
Lemma comprehension_div_zero (tapss : list (list Qc)) :
  py_comprehension
    (fun taps => py_comprehension (fun t => py_div t 0) taps) tapss
  = if match concat tapss with [] => true | _ => false end
    then Ok tapss else Raise ZeroDivisionError.
Proof.
  induction tapss as [|taps tapss IH]; simpl; [reflexivity|].
  destruct taps as [|t taps]; simpl.
  - rewrite IH. destruct (concat tapss); reflexivity.
  - reflexivity.
Qed.

Lemma scale_taps_nonzero (tapss : list (list Qc)) :
  Exists (Exists (fun t => t <> 0)) tapss ->
  scale_taps tapss
  = Ok (map (map (fun t => t / fold_left update_max tapss 0)) tapss,
        fold_left update_max tapss 0).
Proof.
  intros Hex. unfold scale_taps. cbv zeta.
  rewrite comprehension_div_all; [reflexivity|].
  now apply Qc_pos_neq_0, fold_update_max_pos.
Qed.

(** C2.  On a non-empty list of tap lists with a nonzero tap, [scale_taps]
    returns [(scaledtaps, M)] where [M] is the maximum over the tap lists of
    the sum of the absolute values of the taps, and every scaled tap is the
    original tap divided by [M]. *)
Theorem scale_taps_max_and_quotients (tapss : list (list Qc)) :
  tapss <> [] ->
  Exists (Exists (fun t => t <> 0)) tapss ->
  exists scaledtaps M,
    scale_taps tapss = Ok (scaledtaps, M) /\
    In M (map sum_abs tapss) /\
    Forall (fun taps => sum_abs taps <= M) tapss /\
    scaledtaps = map (map (fun t => t / M)) tapss.
Proof.
  intros Hne Hex.
  exists (map (map (fun t => t / fold_left update_max tapss 0)) tapss),
    (fold_left update_max tapss 0).
  split; [now apply scale_taps_nonzero|].
  split; [now apply fold_update_max_is_max|].
  split; [apply fold_update_max_upper | reflexivity].
Qed.

Lemma sum_abs_div (taps : list Qc) (m : Qc) :
  0 < m -> sum_abs (map (fun t => t / m) taps) = sum_abs taps / m.
Proof.
  intros Hm. induction taps as [|t taps IH]; simpl.
  - unfold sum_abs, py_sum. simpl. unfold Qcdiv. ring.
  - rewrite !sum_abs_cons, IH. unfold Qcdiv.
    rewrite Qcabs_Qcmult, (Qcabs_pos (/ m)); [ring|].
    apply Qclt_le_weak. unfold Qclt. unfold Qcinv. simpl.
    rewrite Qred_correct. apply Qinv_lt_0_compat. exact Hm.
Qed.

Lemma Qcdiv_le_1 (x m : Qc) : 0 < m -> x <= m -> x / m <= 1.
Proof.
  intros Hm Hx. apply Qcmult_lt_0_le_reg_r with m; [exact Hm|].
  unfold Qcdiv. rewrite <- Qcmult_assoc, Qcmult_inv_l, Qcmult_1_r, Qcmult_1_l;
    [exact Hx|].
  now apply Qc_pos_neq_0.
Qed.

(** C7.  On a non-empty list of tap lists with a nonzero tap, every scaled
    tap list has a sum of absolute values at most 1, and one of them has a
    sum of absolute values equal to 1. *)
Theorem scale_taps_unit_bound (tapss : list (list Qc)) :
  tapss <> [] ->
  Exists (Exists (fun t => t <> 0)) tapss ->
  exists scaledtaps M,
    scale_taps tapss = Ok (scaledtaps, M) /\
    Forall (fun taps => sum_abs taps <= 1) scaledtaps /\
    Exists (fun taps => sum_abs taps = 1) scaledtaps.
Proof.
  intros Hne Hex.
  set (M := fold_left update_max tapss 0).
  assert (HM : 0 < M) by now apply fold_update_max_pos.
  exists (map (map (fun t => t / M)) tapss), M.
  split; [now apply scale_taps_nonzero|]. split.
  - apply Forall_map.
    eapply Forall_impl; [|apply (fold_update_max_upper tapss 0)].
    intros taps Hle. rewrite sum_abs_div by exact HM.
    now apply Qcdiv_le_1.
  - pose proof (fold_update_max_is_max tapss Hne) as Hin.
    apply in_map_iff in Hin. destruct Hin as [taps [Hsum Hin]].
    apply Exists_exists. exists (map (fun t => t / M) taps).
    split; [now apply in_map|].
    rewrite sum_abs_div by exact HM. fold M in Hsum. rewrite Hsum.
    unfold Qcdiv. now apply Qcmult_inv_r, Qc_pos_neq_0.
Qed.

(** C10.  On a non-empty list of tap lists with a nonzero tap, multiplying
    every scaled tap by the returned factor gives back the original list of
    tap lists. *)
Theorem scale_taps_round_trip (tapss : list (list Qc)) :
  tapss <> [] ->
  Exists (Exists (fun t => t <> 0)) tapss ->
  exists scaledtaps M,
    scale_taps tapss = Ok (scaledtaps, M) /\
    map (map (fun s => s * M)) scaledtaps = tapss.
Proof.
  intros Hne Hex.
  set (M := fold_left update_max tapss 0).
  assert (HM : M <> 0) by now apply Qc_pos_neq_0, fold_update_max_pos.
  exists (map (map (fun t => t / M)) tapss), M.
  split; [now apply scale_taps_nonzero|].
  rewrite map_map. rewrite <- (map_id tapss) at 2.
  apply map_ext. intros taps. rewrite map_map.
  rewrite <- (map_id taps) at 2.
  apply map_ext. intros t. field. exact HM.
Qed.

(** Without a nonzero tap the maximum stays 0. *)
Lemma concat_all_zero (tapss : list (list Qc)) :
  Forall (fun t => t = 0) (concat tapss)
  <-> Forall (Forall (fun t => t = 0)) tapss.
Proof.
  induction tapss as [|taps tapss IH]; simpl.
  - split; constructor.
  - rewrite Forall_app, IH. split.
    + intros [H1 H2]. now constructor.
    + intros H. inversion H; subst. now split.
Qed.

Lemma concat_some_nonzero (tapss : list (list Qc)) :
  Exists (fun t => t <> 0) (concat tapss)
  <-> Exists (Exists (fun t => t <> 0)) tapss.
Proof.
  induction tapss as [|taps tapss IH]; simpl.
  - split; intros H; inversion H.
  - rewrite Exists_app, IH. split.
    + intros [H|H]; [now left | now right].
    + intros H. inversion H; subst; [now left | now right].
Qed.

Lemma all_zero_or_some_nonzero (taps : list Qc) :
  Forall (fun t => t = 0) taps \/ Exists (fun t => t <> 0) taps.
Proof.
  induction taps as [|t taps [IH|IH]].
  - left; constructor.
  - destruct (Qc_eq_dec t 0) as [E|E].
    + left; now constructor.
    + right; now left.
  - right; now right.
Qed.

(** C9, amended.  [scale_taps] raises [ZeroDivisionError] exactly when its
    input holds at least one tap and every tap is zero.  On every other
    input it returns: with the input unchanged and the factor 0 when there
    is no tap at all, and with a positive factor when some tap is nonzero. *)
Theorem scale_taps_zero_division (tapss : list (list Qc)) :
  (scale_taps tapss = Raise ZeroDivisionError <->
   concat tapss <> [] /\ Forall (fun t => t = 0) (concat tapss)) /\
  (concat tapss = [] <-> scale_taps tapss = Ok (tapss, 0)) /\
  (Exists (fun t => t <> 0) (concat tapss) <->
   exists scaledtaps M, scale_taps tapss = Ok (scaledtaps, M) /\ 0 < M).
Proof.
  destruct (all_zero_or_some_nonzero (concat tapss)) as [Hz|Hnz].
  - assert (Hs : scale_taps tapss
                 = if match concat tapss with [] => true | _ => false end
                   then Ok (tapss, 0) else Raise ZeroDivisionError).
    { unfold scale_taps. cbv zeta.
      rewrite fold_update_max_zero by now apply concat_all_zero.
      rewrite comprehension_div_zero.
      destruct (concat tapss); reflexivity. }
    assert (Hno : ~ Exists (fun t => t <> 0) (concat tapss)).
    { intros H. apply Exists_exists in H. destruct H as [t [Hin Ht]].
      rewrite Forall_forall in Hz. now apply Ht, Hz. }
    rewrite Hs. destruct (concat tapss) as [|t ts] eqn:E.
    + split; [|split].
      * split; [discriminate | intros [H _]; congruence].
      * split; reflexivity.
      * split; [intros H; inversion H|].
        intros [s [M [H HM]]]. injection H as _ <-.
        now apply Qclt_not_eq in HM.
    + split; [|split].
      * split; [intros _; split; [discriminate | exact Hz] | reflexivity].
      * split; discriminate.
      * split; [intros H; contradiction (Hno H)|].
        intros [s [M [H _]]]; discriminate.
  - pose proof Hnz as Hex. apply concat_some_nonzero in Hex.
    rewrite (scale_taps_nonzero _ Hex).
    assert (Hne : concat tapss <> [])
      by (intros E; rewrite E in Hnz; inversion Hnz).
    assert (Hnotz : ~ Forall (fun t => t = 0) (concat tapss)).
    { intros Hz. apply Exists_exists in Hnz. destruct Hnz as [t [Hin Ht]].
      rewrite Forall_forall in Hz. now apply Ht, Hz. }
    pose proof (fold_update_max_pos _ Hex) as HM.
    split; [|split].
    + split; [discriminate | intros [_ Hz]; contradiction].
    + split; [intros E; contradiction|].
      intros H. injection H as _ H. rewrite H in HM.
      now apply Qclt_not_eq in HM.
    + split; [intros _; eauto | intros _; exact Hnz].
Qed.

(** C9 as stated fails: the empty list of tap lists holds no nonzero tap,
    and [scale_taps] returns on it. *)
Lemma scale_taps_empty_returns :
  Forall (Forall (fun t => t = 0)) ([] : list (list Qc)) /\
  scale_taps [] = Ok ([], 0) /\
  scale_taps [] <> Raise ZeroDivisionError.
Proof. split; [constructor|]. split; [reflexivity | discriminate]. Qed.

Lemma some_tapss_nonzero : Exists (Exists (fun t => t <> 0)) some_tapss.
Proof. left. left. exact Q_apart_0_1. Qed.

Lemma scale_taps_max_and_quotients_witness :
  some_tapss <> [] /\
  Exists (Exists (fun t => t <> 0)) some_tapss /\
  exists scaledtaps M,
    scale_taps some_tapss = Ok (scaledtaps, M) /\
    In M (map sum_abs some_tapss) /\
    Forall (fun taps => sum_abs taps <= M) some_tapss /\
    scaledtaps = map (map (fun t => t / M)) some_tapss.
Proof.
  split; [discriminate|]. split; [exact some_tapss_nonzero|].
  apply (scale_taps_max_and_quotients some_tapss);
    [discriminate | exact some_tapss_nonzero].
Defined.

Lemma scale_taps_unit_bound_witness :
  some_tapss <> [] /\
  Exists (Exists (fun t => t <> 0)) some_tapss /\
  exists scaledtaps M,
    scale_taps some_tapss = Ok (scaledtaps, M) /\
    Forall (fun taps => sum_abs taps <= 1) scaledtaps /\
    Exists (fun taps => sum_abs taps = 1) scaledtaps.
Proof.
  split; [discriminate|]. split; [exact some_tapss_nonzero|].
  apply (scale_taps_unit_bound some_tapss);
    [discriminate | exact some_tapss_nonzero].
Defined.

Lemma scale_taps_round_trip_witness :
  some_tapss <> [] /\
  Exists (Exists (fun t => t <> 0)) some_tapss /\
  exists scaledtaps M,
    scale_taps some_tapss = Ok (scaledtaps, M) /\
    map (map (fun s => s * M)) scaledtaps = some_tapss.
Proof.
  split; [discriminate|]. split; [exact some_tapss_nonzero|].
  apply (scale_taps_round_trip some_tapss);
    [discriminate | exact some_tapss_nonzero].
Defined.

(** The values on [some_tapss]. *)
Example scale_taps_some_tapss :
  match scale_taps some_tapss with
  | Ok (scaledtaps, M) =>
      map (map this) scaledtaps = [ [1 # 4; -3 # 4]; [1 # 8]%list; [] ]%Q
      /\ this M = 4%Q
  | Raise _ => False
  end.
Proof. vm_compute. split; reflexivity. Qed.

(** Only zeros, and at least one: the division raises. *)
Example scale_taps_zeros_raise :
  scale_taps [ []; [0; 0] ] = Raise ZeroDivisionError.
Proof. reflexivity. Qed.

(** No tap at all: nothing is divided. *)
Example scale_taps_no_tap_returns :
  scale_taps [ []; [] ] = Ok ([ []; [] ], 0).
Proof. reflexivity. Qed.

Lemma combine_app_same_length {A B : Type} (l1 l2 : list A) (l1' l2' : list B) :
  length l1 = length l1' ->
  combine (l1 ++ l2) (l1' ++ l2') = combine l1 l1' ++ combine l2 l2'.
Proof.
  revert l1'. induction l1 as [|a l1 IH]; intros [|b l1'] H; simpl in *;
    try discriminate; [reflexivity|].
  f_equal. apply IH. lia.
Qed.

(** ** [prune_zeros] *)

Section PruneZerosProperties.

Variable A : Type.
Variable nonzero : A -> bool.

Lemma enumerate_snoc (xs : list A) (x : A) :
  enumerate (xs ++ [x]) = enumerate xs ++ [(length xs, x)].
Proof.
  unfold enumerate. rewrite length_app. simpl length.
  rewrite Nat.add_1_r, seq_S, combine_app_same_length by now rewrite length_seq.
  reflexivity.
Qed.

Lemma found_loop (xs : list A) :
  found nonzero xs
    (fold_left (prune_zeros_step nonzero) (enumerate xs) (None, None)).
Proof.
  induction xs as [|x xs IH] using rev_ind.
  - apply found_none. constructor.
  - rewrite enumerate_snoc, fold_left_app. simpl.
    destruct IH as [Hz | pre r suf y Hxs Hpre Hsuf Hhd Hy Hlast];
      unfold prune_zeros_step; destruct (nonzero x) eqn:Hx.
    + replace (length xs) with (length xs + length [x] - 1)%nat at 2
        by (simpl; lia).
      apply found_some with (suf := []) (x := x);
        [reflexivity | exact Hz | constructor | reflexivity | exact Hx
        | exact Hx].
    + apply found_none. apply Forall_app. split; [exact Hz|]. now constructor.
    + replace (length xs)
        with (length pre + length (r ++ suf ++ [x]) - 1)%nat
        by (rewrite Hxs, !length_app; simpl; lia).
      apply found_some with (suf := []) (x := y);
        [ | exact Hpre | constructor | | exact Hy | ].
      * rewrite Hxs, app_nil_r, <- !app_assoc. reflexivity.
      * destruct r; [discriminate | exact Hhd].
      * rewrite app_assoc, last_last. exact Hx.
    + apply found_some with (suf := suf ++ [x]) (x := y);
        [ | exact Hpre | | exact Hhd | exact Hy | exact Hlast ].
      * rewrite Hxs, <- !app_assoc. reflexivity.
      * apply Forall_app. split; [exact Hsuf|]. now constructor.
Qed.

Lemma py_slice_middle (pre r suf : list A) :
  r <> [] ->
  py_slice (pre ++ r ++ suf) (length pre) (length pre + length r - 1 + 1) = r.
Proof.
  intros Hr. unfold py_slice.
  assert (Hlen : (1 <= length r)%nat)
    by (destruct r; [congruence | simpl; lia]).
  replace (length pre + length r - 1 + 1)%nat with (length (pre ++ r))
    by (rewrite length_app; lia).
  rewrite app_assoc, firstn_app, firstn_all, Nat.sub_diag, firstn_O, app_nil_r.
  rewrite skipn_app, skipn_all, Nat.sub_diag. reflexivity.
Qed.

(** The access [stop_index + 1] is never made on [None]. *)
Lemma prune_zeros_total (xs : list A) :
  exists r, prune_zeros nonzero xs = Ok r.
Proof.
  unfold prune_zeros. destruct (found_loop xs); eauto.
Qed.

(** C8.  [prune_zeros xs] returns the part of [xs] between its first and
    its last nonzero element, both included: [xs] is a run of zeros, then
    the result, then a run of zeros, and the result, when it is not empty,
    starts and ends with a nonzero element.  The result is empty when [xs]
    is empty or holds only zeros. *)
Theorem prune_zeros_slice (xs : list A) :
  exists pre r suf,
    prune_zeros nonzero xs = Ok r /\
    xs = pre ++ r ++ suf /\
    Forall (fun x => nonzero x = false) pre /\
    Forall (fun x => nonzero x = false) suf /\
    match r with
    | [] => Forall (fun x => nonzero x = false) xs
    | x :: _ => nonzero x = true /\ nonzero (last r x) = true
    end.
Proof.
  unfold prune_zeros.
  destruct (found_loop xs) as [Hz | pre r suf y Hxs Hpre Hsuf Hhd Hy Hlast].
  - exists xs, [], []. rewrite app_nil_r. repeat split; auto.
  - exists pre, r, suf.
    assert (Hr : r <> []) by (destruct r; [discriminate | congruence]).
    rewrite Hxs at 1. rewrite py_slice_middle by exact Hr.
    repeat split; auto.
    destruct r as [|x r']; [congruence|].
    simpl in Hhd. injection Hhd as ->. now split.
Qed.

End PruneZerosProperties.

Example prune_zeros_both_ends :
  prune_zeros (fun x => negb (x =? 0)%Z) [0; 0; 1; 0; 2; 0; 0]%Z
  = Ok [1; 0; 2]%Z.
Proof. reflexivity. Qed.

Example prune_zeros_only_zeros :
  prune_zeros (fun x => negb (x =? 0)%Z) [0; 0; 0]%Z = Ok [].
Proof. reflexivity. Qed.

(** ** Assertions *)

Lemma run_pass (body : result (list assertion)) :
  run body = Pass <->
  exists assertions,
    body = Ok assertions /\ Forall (fun a => holds a = true) assertions.
Proof.
  unfold run. destruct body as [l|e].
  - destruct (forallb holds l) eqn:E.
    + split; [|reflexivity]. intros _. exists l. split; [reflexivity|].
      apply Forall_forall. now apply forallb_forall.
    + split; [discriminate|]. intros [l' [H Hall]]. injection H as <-.
      rewrite Forall_forall in Hall. apply forallb_forall in Hall. congruence.
  - split; [discriminate|]. intros [l [H _]]. discriminate.
Qed.

Lemma holds_equal_int (a b : Z) :
  holds (AssertEqual (VInt a) (VInt b)) = true <-> a = b.
Proof.
  simpl. unfold py_eq, complex_eqb. simpl.
  rewrite andb_true_iff, !Qc_eq_bool_true, Q2Qc_eq_iff. split.
  - intros [H _]. unfold Qeq in H. simpl in H. lia.
  - intros ->. split; reflexivity.
Qed.

Lemma assert_all_equal_holds (rs es : list Z) :
  length rs = length es ->
  Forall (fun a => holds a = true) (assert_all_equal rs es) <-> rs = es.
Proof.
  revert es. induction rs as [|r rs IH]; intros [|e es] Hlen;
    simpl in Hlen; try discriminate.
  - split; [reflexivity | constructor].
  - unfold assert_all_equal. simpl. rewrite Forall_cons_iff.
    fold (assert_all_equal rs es). rewrite holds_equal_int, IH by lia.
    split; [intros [-> ->]; reflexivity | intros H; injection H; auto].
Qed.

Lemma holds_equal_len {A : Type} (xs ys : list A) :
  holds (AssertEqual (VInt (len xs)) (VInt (len ys))) = true <->
  length xs = length ys.
Proof. rewrite holds_equal_int. unfold len. lia. Qed.

(** ** The filterbank test *)

(** The reference values of [test_simple] are computed without error. *)
Lemma test_simple_body (ms : list Z) (tb : FilterbankTestBench) :
  exists received expected,
    test_simple ms tb
    = Ok (compare_to_expected received expected tb ms
            (first_filter_signals 4 10)).
Proof.
  unfold test_simple. cbv zeta.
  match goal with
  | |- context [py_comprehension ?f ?l] =>
      destruct (py_comprehension f l) as [expected|e] eqn:E
  end.
  - simpl. eauto.
  - vm_compute in E. discriminate.
Qed.

Lemma compare_to_expected_pass (received : list (list complex))
  (expected : list (list Qc)) (tb : FilterbankTestBench) (ms ffs : list Z) :
  Forall (fun a => holds a = true)
    (compare_to_expected received expected tb ms ffs) ->
  out_ms tb = ms /\ out_ff tb = ffs.
Proof.
  unfold compare_to_expected. rewrite !Forall_app.
  intros [_ [Hlm [Hms [Hlf Hff]]]].
  apply Forall_inv in Hlm. apply holds_equal_len in Hlm.
  apply Forall_inv in Hlf. apply holds_equal_len in Hlf.
  split; now apply assert_all_equal_holds.
Qed.

Lemma exact_bench_passes :
  run (test_simple some_ms (exact_bench some_ms)) = Pass.
Proof. vm_compute. reflexivity. Qed.

(** A changed metadata value fails the test. *)
Example changed_metadata_fails :
  run (test_simple some_ms (exact_bench (0 :: tl some_ms)%Z)) = Fail.
Proof. vm_compute. reflexivity. Qed.

(** [zip] stops at the shorter sequence and the number of samples is not
    asserted: a run that captured no sample still passes. *)
Example missing_samples_pass :
  run (test_simple some_ms
         {| output := []; out_ms := some_ms;
            out_ff := first_filter_signals 4 10 |}) = Pass.
Proof. vm_compute. reflexivity. Qed.

(** C4.  A run of the filterbank test passes only if the captured metadata
    sequence has the length of the input metadata sequence and is equal to
    it, element for element. *)
Theorem test_simple_metadata_exact (ms : list Z) (tb : FilterbankTestBench) :
  run (test_simple ms tb) = Pass ->
  length (out_ms tb) = length ms /\ out_ms tb = ms.
Proof.
  intros Hpass. apply run_pass in Hpass.
  destruct Hpass as [assertions [Hbody Hall]].
  destruct (test_simple_body ms tb) as [received [expected Heq]].
  rewrite Heq in Hbody. injection Hbody as <-.
  apply compare_to_expected_pass in Hall. destruct Hall as [Hms _].
  now rewrite Hms.
Qed.

Lemma test_simple_metadata_exact_witness :
  run (test_simple some_ms (exact_bench some_ms)) = Pass /\
  length (out_ms (exact_bench some_ms)) = length some_ms /\
  out_ms (exact_bench some_ms) = some_ms.
Proof.
  split; [exact exact_bench_passes|].
  exact (test_simple_metadata_exact some_ms (exact_bench some_ms)
           exact_bench_passes).
Defined.

(** ** The first-filter pattern *)

Lemma nth_concat_repeat {A : Type} (block : list A) (k i : nat) (d : A) :
  (i < length block * k)%nat ->
  nth i (concat (repeat block k)) d = nth (i mod length block) block d.
Proof.
  revert i. induction k as [|k IH]; intros i Hi; [lia|].
  simpl. destruct (Nat.lt_ge_cases i (length block)) as [Hlt|Hge].
  - rewrite app_nth1 by exact Hlt. now rewrite Nat.mod_small.
  - rewrite app_nth2 by exact Hge. rewrite IH by lia.
    replace i with (i - length block + 1 * length block)%nat at 2 by lia.
    now rewrite Nat.Div0.mod_add.
Qed.

Lemma length_concat_repeat {A : Type} (block : list A) (k : nat) :
  length (concat (repeat block k)) = (length block * k)%nat.
Proof.
  induction k as [|k IH]; simpl; [lia|]. rewrite length_app, IH. lia.
Qed.

Lemma nth_one_then_zeros (n j : nat) :
  nth j (1 :: repeat 0 n)%Z 0%Z = if (j =? 0)%nat then 1%Z else 0%Z.
Proof.
  destruct j as [|j]; simpl; [reflexivity|].
  destruct (Nat.lt_ge_cases j n) as [Hlt|Hge].
  - now rewrite nth_repeat_lt.
  - now rewrite nth_overflow by (rewrite repeat_length; lia).
Qed.

(** C5.  With at least one filter, the expected first-filter sequence is the
    block made of a 1 and [n_filters - 1] zeros, repeated [n_data] times: it
    has [n_filters * n_data] elements, a 1 at every multiple of [n_filters]
    and a 0 elsewhere.  A run of the test passes only if the captured
    sequence has the same length and is equal to it, element for element. *)
Theorem first_filter_pattern (n_filters n_data : Z) (ms : list Z)
  (tb : FilterbankTestBench) :
  (1 <= n_filters)%Z ->
  (0 <= n_data)%Z ->
  first_filter_signals n_filters n_data
  = concat (repeat (1 :: repeat 0 (Z.to_nat n_filters - 1))%Z
              (Z.to_nat n_data)) /\
  len (first_filter_signals n_filters n_data) = (n_filters * n_data)%Z /\
  (forall i : nat,
      (i < length (first_filter_signals n_filters n_data))%nat ->
      nth i (first_filter_signals n_filters n_data) 0%Z
      = if (i mod Z.to_nat n_filters =? 0)%nat then 1%Z else 0%Z) /\
  (run (test_simple ms tb) = Pass ->
   length (out_ff tb) = length (first_filter_signals 4 10) /\
   out_ff tb = first_filter_signals 4 10).
Proof.
  intros Hf Hd.
  assert (Hdef : first_filter_signals n_filters n_data
    = concat (repeat (1 :: repeat 0 (Z.to_nat n_filters - 1))%Z
                (Z.to_nat n_data))).
  { unfold first_filter_signals. rewrite py_mul_singleton. unfold py_mul.
    simpl app. now rewrite Z2Nat.inj_sub by lia. }
  assert (Hblock : length (1 :: repeat 0 (Z.to_nat n_filters - 1))%Z
                   = Z.to_nat n_filters)
    by (simpl; rewrite repeat_length; lia).
  split; [exact Hdef|]. rewrite Hdef. split; [|split].
  - unfold len. rewrite length_concat_repeat, Hblock. lia.
  - intros i Hi. rewrite length_concat_repeat in Hi.
    rewrite nth_concat_repeat by exact Hi.
    rewrite Hblock. apply nth_one_then_zeros.
  - intros Hpass. apply run_pass in Hpass.
    destruct Hpass as [assertions [Hbody Hall]].
    destruct (test_simple_body ms tb) as [received [expected Heq]].
    rewrite Heq in Hbody. injection Hbody as <-.
    apply compare_to_expected_pass in Hall. destruct Hall as [_ Hff].
    now rewrite Hff.
Qed.

Lemma first_filter_pattern_witness :
  (1 <= 4)%Z /\ (0 <= 10)%Z /\
  run (test_simple some_ms (exact_bench some_ms)) = Pass /\
  first_filter_signals 4 10
  = concat (repeat (1 :: repeat 0 (Z.to_nat 4 - 1))%Z (Z.to_nat 10)) /\
  len (first_filter_signals 4 10) = (4 * 10)%Z /\
  (forall i : nat,
      (i < length (first_filter_signals 4 10))%nat ->
      nth i (first_filter_signals 4 10) 0%Z
      = if (i mod Z.to_nat 4 =? 0)%nat then 1%Z else 0%Z) /\
  length (out_ff (exact_bench some_ms)) = length (first_filter_signals 4 10) /\
  out_ff (exact_bench some_ms) = first_filter_signals 4 10.
Proof.
  assert (Hf : (1 <= 4)%Z) by lia.
  assert (Hd : (0 <= 10)%Z) by lia.
  destruct (first_filter_pattern 4 10 some_ms (exact_bench some_ms) Hf Hd)
    as [Hdef [Hlen [Hnth Hpass]]].
  repeat split; try assumption; apply Hpass, exact_bench_passes.
Defined.

(** ** Tolerance of the sample comparisons *)

Lemma confirm_data_tolerant (expected : list complex) (tb : TestBench) :
  Forall tolerant_on_samples (confirm_data expected tb).
Proof.
  unfold confirm_data. constructor; [now split|].
  apply Forall_forall. intros a Ha. apply in_map_iff in Ha.
  destruct Ha as [re [<- _]]. reflexivity.
Qed.

Lemma assert_all_almost_equal_tolerant (rs es : list pyval) :
  Forall tolerant_on_samples (assert_all_almost_equal rs es 3).
Proof.
  apply Forall_forall. intros a Ha. apply in_map_iff in Ha.
  destruct Ha as [re [<- _]]. reflexivity.
Qed.

Lemma assert_all_equal_tolerant (rs es : list Z) :
  Forall tolerant_on_samples (assert_all_equal rs es).
Proof.
  apply Forall_forall. intros a Ha. apply in_map_iff in Ha.
  destruct Ha as [re [<- _]]. now split.
Qed.

Lemma flat_map_tolerant {A : Type} (f : A -> list assertion) (xs : list A) :
  (forall x, Forall tolerant_on_samples (f x)) ->
  Forall tolerant_on_samples (flat_map f xs).
Proof.
  intros H. apply Forall_forall. intros a Ha. apply in_flat_map in Ha.
  destruct Ha as [x [_ Ha]]. specialize (H x).
  rewrite Forall_forall in H. now apply H.
Qed.

Lemma compare_to_expected_tolerant (received : list (list complex))
  (expected : list (list Qc)) (tb : FilterbankTestBench) (ms ffs : list Z) :
  Forall tolerant_on_samples (compare_to_expected received expected tb ms ffs).
Proof.
  unfold compare_to_expected. rewrite !Forall_app.
  repeat split; try apply assert_all_equal_tolerant;
    try (constructor; [now split | constructor]).
  apply flat_map_tolerant. intros rs_es.
  apply assert_all_almost_equal_tolerant.
Qed.

(** C6.  In the two FFT tests and in the filterbank test, every assertion
    that receives a sample is an approximate-equality assertion to 3
    places; the exact-equality assertions are all on integers. *)
Theorem sample_comparisons_tolerant (in_samples : list complex)
  (tb_icarus_inner tb_icarus_outer tb_b100 : TestBench) (ms : list Z)
  (tb : FilterbankTestBench) :
  Forall tolerant_on_samples
    (TestDIT_test_one in_samples tb_icarus_inner tb_icarus_outer) /\
  Forall tolerant_on_samples
    (TestStage_test_one in_samples tb_icarus_inner tb_icarus_outer tb_b100) /\
  exists assertions,
    test_simple ms tb = Ok assertions /\
    Forall tolerant_on_samples assertions.
Proof.
  split; [|split].
  - apply flat_map_tolerant. intros tb'. apply confirm_data_tolerant.
  - apply flat_map_tolerant. intros tb'. apply confirm_data_tolerant.
  - destruct (test_simple_body ms tb) as [received [expected Heq]].
    eexists. split; [exact Heq|]. apply compare_to_expected_tolerant.
Qed.

(** ** The FFT tests *)

Lemma Forall_map_combine {A B : Type} (P : A * B -> Prop) (rs : list A)
  (es : list B) :
  length rs = length es ->
  Forall P (combine rs es) <-> Forall2 (fun r e => P (r, e)) rs es.
Proof.
  revert es. induction rs as [|r rs IH]; intros [|e es] Hlen;
    simpl in Hlen; try discriminate; simpl.
  - split; constructor.
  - rewrite Forall_cons_iff, IH by lia. split.
    + intros [H1 H2]. now constructor.
    + intros H. inversion H; subst. now split.
Qed.

Lemma confirm_data_holds (expected : list complex) (tb : TestBench) :
  Forall (fun a => holds a = true) (confirm_data expected tb) <->
  agrees_with expected tb.
Proof.
  unfold confirm_data, agrees_with.
  rewrite Forall_cons_iff, holds_equal_len, Forall_map. split.
  - intros [Hlen H]. split; [exact Hlen|].
    apply (Forall_map_combine
             (fun re => holds (AssertAlmostEqual (VComplex (snd re))
                                 (VComplex (fst re)) 3) = true)); assumption.
  - intros [Hlen H]. split; [exact Hlen|].
    apply (Forall_map_combine
             (fun re => holds (AssertAlmostEqual (VComplex (snd re))
                                 (VComplex (fst re)) 3) = true)); assumption.
Qed.

Lemma flat_map_confirm_data_holds (expected : list complex)
  (tbs : list TestBench) :
  Forall (fun a => holds a = true) (flat_map (confirm_data expected) tbs) <->
  Forall (agrees_with expected) tbs.
Proof.
  induction tbs as [|tb tbs IH].
  - split; constructor.
  - change (flat_map (confirm_data expected) (tb :: tbs))
      with (confirm_data expected tb ++ flat_map (confirm_data expected) tbs).
    rewrite Forall_app, Forall_cons_iff, IH, confirm_data_holds. reflexivity.
Qed.

Lemma run_ok_pass (assertions : list assertion) :
  run (Ok assertions) = Pass <-> Forall (fun a => holds a = true) assertions.
Proof.
  rewrite run_pass. split.
  - intros [l [H Hall]]. now injection H as ->.
  - intros H. now exists assertions.
Qed.

(** C3, amended.  In both FFT tests the expected sequence is the sequence of
    input samples itself.  The test passes exactly when the output of every
    test bench has the length of the input and agrees with the input, sample
    for sample, to 3 places. *)
Theorem fft_tests_expect_the_input (in_samples : list complex)
  (tb_icarus_inner tb_icarus_outer tb_b100 : TestBench) :
  TestDIT_expected in_samples = in_samples /\
  TestStage_expected in_samples = in_samples /\
  (run (Ok (TestDIT_test_one in_samples tb_icarus_inner tb_icarus_outer)) = Pass
   <-> Forall (agrees_with in_samples) [tb_icarus_inner; tb_icarus_outer]) /\
  (run (Ok (TestStage_test_one in_samples tb_icarus_inner tb_icarus_outer
              tb_b100)) = Pass
   <-> Forall (agrees_with in_samples)
         [tb_icarus_inner; tb_icarus_outer; tb_b100]).
Proof.
  split; [reflexivity|]. split; [reflexivity|].
  unfold TestDIT_test_one, TestStage_test_one, TestDIT_expected,
    TestStage_expected.
  rewrite !run_ok_pass, !flat_map_confirm_data_holds. split; reflexivity.
Qed.

Module FFTReferenceFacts.

Import FFTReference.
Local Open Scope R_scope.

(** The twiddle factors are the [N]-th roots of unity. *)
Lemma twiddle_0 (N : nat) : twiddle N 0 = Rc_one.
Proof.
  unfold twiddle, Rc_one. simpl INR.
  replace (2 * PI * 0 / INR N) with 0 by (unfold Rdiv; ring).
  now rewrite cos_0, sin_0, Ropp_0.
Qed.

Lemma twiddle_period (N k : nat) :
  N <> 0%nat -> twiddle N (k + N) = twiddle N k.
Proof.
  intros HN. unfold twiddle.
  assert (HR : INR N <> 0) by now apply not_0_INR.
  replace (2 * PI * INR (k + N) / INR N)
    with (2 * PI * INR k / INR N + 2 * INR 1 * PI)
    by (rewrite plus_INR; simpl INR; field; exact HR).
  now rewrite cos_period, sin_period.
Qed.

(** The first bin is the sum of the samples of the block. *)
Lemma dft_bin_0 (N : nat) (x : list Rcomplex) :
  dft_bin N x 0
  = fold_right Rc_add Rc_zero (map (fun n => nth n x Rc_zero) (seq 0 N)).
Proof.
  unfold dft_bin. f_equal. apply map_ext. intros n.
  rewrite Nat.mul_0_r, twiddle_0. unfold Rc_mul, Rc_one. simpl.
  destruct (nth n x Rc_zero) as [a b]. simpl. f_equal; ring.
Qed.

Lemma fft_reference_length (N : nat) (in_samples : list Rcomplex) :
  length (fft_reference N in_samples) = length in_samples.
Proof. unfold fft_reference. now rewrite length_map, length_seq. Qed.

(** Bin 1 of the transform of the drawn impulse is -1, not the second
    sample 0. *)
Lemma dft_drawn_impulse_bin_1 (n : nat) :
  Re (dft_bin 8 (drawn_impulse (S (S n))) 1) = -1.
Proof.
  unfold dft_bin, drawn_impulse. simpl.
  destruct n as [|[|[|[|[|[|n]]]]]]; simpl;
    replace (2 * PI * 0 / (1 + 1 + 1 + 1 + 1 + 1 + 1 + 1)) with 0
      by (unfold Rdiv; ring);
    rewrite cos_0, sin_0; ring.
Qed.

Lemma drawn_impulse_drawable (n : nat) : Forall drawable (drawn_impulse n).
Proof.
  destruct n as [|n]; [constructor|].
  constructor.
  - unfold drawable. simpl. lra.
  - apply Forall_forall. intros c Hc. apply repeat_spec in Hc. subst c.
    unfold drawable. simpl. lra.
Qed.

(** C3 as stated fails: on samples that [test_one] can draw, [-1+0j]
    followed by zeros, the expected sequence of either test differs from the
    8-point transform of the input (10 samples in [TestDIT], 16 in
    [TestStage]). *)
Lemma expected_is_not_the_fft :
  (Forall drawable (drawn_impulse 10) /\
   TestDIT_expected (drawn_impulse 10) <> fft_reference 8 (drawn_impulse 10)) /\
  (Forall drawable (drawn_impulse 16) /\
   TestStage_expected (drawn_impulse 16) <> fft_reference 8 (drawn_impulse 16)).
Proof.
  split; (split; [apply drawn_impulse_drawable|]);
    intros H; apply (f_equal (fun l => Re (nth 1 l Rc_zero))) in H.
  - change (Re (nth 1 (fft_reference 8 (drawn_impulse 10)) Rc_zero))
      with (Re (dft_bin 8 (drawn_impulse 10) 1)) in H.
    rewrite (dft_drawn_impulse_bin_1 8) in H. simpl in H. lra.
  - change (Re (nth 1 (fft_reference 8 (drawn_impulse 16)) Rc_zero))
      with (Re (dft_bin 8 (drawn_impulse 16) 1)) in H.
    rewrite (dft_drawn_impulse_bin_1 14) in H. simpl in H. lra.
Qed.

End FFTReferenceFacts.

(** * Further properties *)

(** ** [convolve]: closed form, edge cases *)

Section ConvolveClosedForm.

Context {A : Type} `{Number A}.

(** With taps, the result is the list of the window sums. *)
Lemma convolve_window_sums (data taps : list A) :
  taps <> [] ->
  convolve data taps
  = Ok (map (window_sum data taps) (seq 0 (length data))).
Proof.
  intros Htaps.
  assert (Hlen : (1 <= length taps)%nat)
    by (destruct taps; [congruence | simpl; lia]).
  set (positions :=
         map (fun k => (length taps - 1 + k)%nat) (seq 0 (length data))).
  unfold convolve.
  pose proof (padded_zero_padded data taps) as Hpad. cbv zeta in Hpad.
  assert (Hrange :
    py_range (len taps - 1) (len (py_mul [num_zero] (len taps - 1) ++ data))
    = map Z.of_nat positions).
  { rewrite Hpad. unfold zero_padded, len.
    rewrite length_app, repeat_length.
    replace (Z.of_nat (length taps - 1 + length data))
      with (Z.of_nat (length taps) - 1 + Z.of_nat (length data))%Z by lia.
    rewrite py_range_nat. unfold positions. rewrite map_map.
    apply map_ext. intros k. lia. }
  rewrite Hrange.
  pose proof (convolve_outer data taps positions []) as Hout.
  cbv zeta in Hout. rewrite Hout.
  - rewrite Hpad. unfold positions. rewrite map_map. reflexivity.
  - rewrite Hpad. unfold positions, zero_padded.
    apply Forall_forall. intros i Hi. apply in_map_iff in Hi.
    destruct Hi as [k [<- Hk]]. apply in_seq in Hk.
    rewrite length_app, repeat_length. lia.
Qed.

(** A loop whose body appends the same value each time. *)
Lemma py_for_append_constant {B : Type} (xs : list B) (v : A) (out : list A) :
  py_for xs (fun out _ => Ok (out ++ [v])) out
  = Ok (out ++ repeat v (length xs)).
Proof.
  revert out. induction xs as [|x xs IH]; intros out; simpl.
  - now rewrite app_nil_r.
  - rewrite IH, <- app_assoc. reflexivity.
Qed.

Lemma py_for_ext {S B : Type} (xs : list B) (body body' : S -> B -> result S)
  (s : S) :
  (forall s x, body s x = body' s x) ->
  py_for xs body s = py_for xs body' s.
Proof.
  intros Hext. revert s. induction xs as [|x xs IH]; intros s; simpl.
  - reflexivity.
  - rewrite Hext. destruct (body' s x); simpl; auto.
Qed.

(** The outer loop without taps: its range starts at -1, the inner loop is
    empty. *)
Lemma convolve_nil_taps (data : list A) :
  convolve data [] = Ok (repeat num_zero (length data + 1)).
Proof.
  unfold convolve. cbv zeta.
  change (py_mul [num_zero] (len (@nil A) - 1) ++ data) with data.
  rewrite py_for_ext with (body' := fun out _ => Ok (out ++ [num_zero]))
    by reflexivity.
  rewrite py_for_append_constant, py_range_length. simpl app.
  f_equal. f_equal. unfold len. simpl. lia.
Qed.

(** X1.  Without taps [convolve] does not raise: the result is one zero
    more than there are samples. *)
Theorem convolve_without_taps (data : list A) :
  convolve data [] = Ok (repeat num_zero (length data + 1)).
Proof. exact (convolve_nil_taps data). Qed.

Lemma sum_upto_ext (n : nat) (f g : nat -> A) :
  (forall j, (j < n)%nat -> f j = g j) -> sum_upto n f = sum_upto n g.
Proof.
  induction n as [|n IH]; intros Hext; simpl; [reflexivity|].
  rewrite IH, Hext by auto. reflexivity.
Qed.

Lemma firstn_seq_0 (n m : nat) : firstn n (seq 0 m) = seq 0 (Nat.min n m).
Proof.
  revert n. generalize 0%nat.
  induction m as [|m IH]; intros s n; destruct n; simpl; try reflexivity.
  now rewrite IH.
Qed.

(** The padded list seen from a window that ends inside the first [n]
    samples does not depend on the later samples. *)
Lemma zero_padded_firstn (data : list A) (pad n q : nat) :
  (q < pad + n)%nat ->
  nth q (zero_padded pad (firstn n data)) num_zero
  = nth q (zero_padded pad data) num_zero.
Proof.
  intros Hq. unfold zero_padded.
  destruct (Nat.lt_ge_cases q pad) as [Hlt|Hge].
  - now rewrite !app_nth1 by (rewrite repeat_length; exact Hlt).
  - rewrite !app_nth2 by (rewrite repeat_length; exact Hge).
    rewrite repeat_length, nth_firstn.
    destruct (Nat.ltb_spec (q - pad) n) as [_|Hn]; [reflexivity | lia].
Qed.

(** X2.  [convolve] is causal: the first [n] outputs are computed from the
    first [n] samples alone. *)
Theorem convolve_causal (data taps : list A) (n : nat) :
  taps <> [] ->
  exists out,
    convolve data taps = Ok out /\
    convolve (firstn n data) taps = Ok (firstn n out).
Proof.
  intros Htaps. eexists. split; [now apply convolve_window_sums|].
  rewrite convolve_window_sums by exact Htaps.
  rewrite firstn_map, firstn_seq_0, length_firstn. f_equal.
  apply map_ext_in. intros i Hi. apply in_seq in Hi.
  unfold window_sum. apply sum_upto_ext. intros j Hj. f_equal.
  apply zero_padded_firstn. lia.
Qed.

End ConvolveClosedForm.

(** ** [convolve] on exact reals: delay, linearity *)

Lemma sum_upto_single (n k : nat) (g : nat -> Qc) :
  (k < n)%nat ->
  (forall j, (j < n)%nat -> j <> k -> g j = 0) ->
  sum_upto n g = g k.
Proof.
  induction n as [|n IH]; intros Hk Hg; [lia|]. simpl.
  destruct (Nat.eq_dec k n) as [->|Hne].
  - assert (Hz : sum_upto n g = 0).
    { clear IH Hk. assert (Hg' : forall j, (j < n)%nat -> g j = 0)
        by (intros j Hj; apply Hg; lia).
      clear Hg. induction n as [|m IHm]; simpl; [reflexivity|].
      rewrite IHm, Hg' by auto. reflexivity. }
    rewrite Hz. apply Qcplus_0_l.
  - rewrite IH, (Hg n) by (auto; lia). apply Qcplus_0_r.
Qed.

Lemma sum_upto_linear (n : nat) (a b : Qc) (f g : nat -> Qc) :
  sum_upto n (fun j => a * f j + b * g j)
  = a * sum_upto n f + b * sum_upto n g.
Proof.
  induction n as [|n IH]; simpl.
  - ring.
  - rewrite IH. ring.
Qed.

Lemma sum_upto_scale_r (n : nat) (c : Qc) (f : nat -> Qc) :
  sum_upto n (fun j => f j * c) = sum_upto n f * c.
Proof.
  induction n as [|n IH]; simpl.
  - ring.
  - rewrite IH. ring.
Qed.

Lemma nth_unit_taps (k m j : nat) :
  nth j (repeat 0 k ++ 1 :: repeat 0 m) 0 = if (j =? k)%nat then 1 else 0.
Proof.
  destruct (Nat.lt_ge_cases j k) as [Hlt|Hge].
  - rewrite app_nth1 by (rewrite repeat_length; exact Hlt).
    rewrite nth_repeat_lt by exact Hlt.
    destruct (Nat.eqb_spec j k); [lia | reflexivity].
  - rewrite app_nth2 by (rewrite repeat_length; exact Hge).
    rewrite repeat_length.
    destruct (Nat.eqb_spec j k) as [->|Hne].
    + now rewrite Nat.sub_diag.
    + destruct (j - k)%nat as [|d] eqn:E; [lia|]. simpl.
      destruct (Nat.lt_ge_cases d m) as [Hd|Hd].
      * now rewrite nth_repeat_lt.
      * now rewrite nth_overflow by (rewrite repeat_length; lia).
Qed.

Lemma nth_zero_padded (pad q : nat) (data : list Qc) :
  nth q (zero_padded pad data) 0
  = if (q <? pad)%nat then 0 else nth (q - pad) data 0.
Proof.
  unfold zero_padded. destruct (Nat.ltb_spec q pad) as [Hlt|Hge].
  - rewrite app_nth1 by (rewrite repeat_length; exact Hlt).
    now apply nth_repeat_lt.
  - rewrite app_nth2 by (rewrite repeat_length; exact Hge).
    now rewrite repeat_length.
Qed.

(** X3.  Taps that are zero except for a single 1 at position [k] delay the
    samples by [k]: the output is the input behind [k] zeros, cut to the
    length of the input.  For [k = 0] the output is the input. *)
Theorem convolve_unit_tap_delays (data : list Qc) (k m : nat) :
  convolve data (repeat 0 k ++ [1] ++ repeat 0 m)
  = Ok (firstn (length data) (repeat 0 k ++ data)).
Proof.
  change ([1] ++ repeat 0 m) with (1 :: repeat 0 m).
  set (taps := repeat 0 k ++ 1 :: repeat 0 m).
  assert (HL : length taps = (k + m + 1)%nat).
  { unfold taps. rewrite length_app. simpl. rewrite !repeat_length. lia. }
  rewrite convolve_window_sums by (intros E; rewrite E in HL; simpl in HL; lia).
  f_equal. apply nth_ext with (d := 0) (d' := 0).
  - rewrite length_map, length_seq, length_firstn, length_app, repeat_length.
    lia.
  - intros i Hi. rewrite length_map, length_seq in Hi.
    rewrite nth_map_seq by exact Hi.
    rewrite nth_firstn.
    destruct (Nat.ltb_spec i (length data)) as [_|Hge]; [|lia].
    unfold window_sum. cbv zeta. rewrite HL.
    rewrite sum_upto_single with (k := k).
    + simpl num_mul. simpl num_zero. unfold taps.
      rewrite nth_unit_taps, Nat.eqb_refl, Qcmult_1_r.
      rewrite nth_zero_padded.
      change (repeat (Q2Qc 0) k ++ data) with (zero_padded k data).
      rewrite nth_zero_padded.
      destruct (Nat.ltb_spec (k + m + 1 - 1 + i - k) (k + m + 1 - 1));
        destruct (Nat.ltb_spec i k); try lia; [reflexivity|].
      f_equal. lia.
    + lia.
    + intros j Hj Hne. simpl num_mul. simpl num_zero. unfold taps.
      rewrite nth_unit_taps.
      destruct (Nat.eqb_spec j k); [contradiction|]. apply Qcmult_0_r.
Qed.

Lemma linear_combination_zeros (a b : Qc) (n : nat) :
  linear_combination a b (repeat 0 n) (repeat 0 n) = repeat 0 n.
Proof.
  unfold linear_combination. induction n as [|n IH]; simpl; [reflexivity|].
  rewrite IH. f_equal. ring.
Qed.

(** X4.  [convolve] is linear in the samples: the response to
    [a * x + b * y] is [a] times the response to [x] plus [b] times the
    response to [y]. *)
Theorem convolve_linear (a b : Qc) (xs ys taps : list Qc) :
  length xs = length ys ->
  exists out_x out_y,
    convolve xs taps = Ok out_x /\
    convolve ys taps = Ok out_y /\
    convolve (linear_combination a b xs ys) taps
    = Ok (linear_combination a b out_x out_y).
Proof.
  intros Hlen.
  assert (Hl : length (linear_combination a b xs ys) = length xs).
  { unfold linear_combination. rewrite length_map, length_combine. lia. }
  destruct taps as [|t taps'] eqn:Etaps.
  { do 2 eexists. rewrite !convolve_nil_taps.
    split; [reflexivity|]. split; [reflexivity|].
    simpl num_zero. rewrite Hl, <- Hlen. f_equal. symmetry.
    apply linear_combination_zeros. }
  assert (Htaps : taps <> []) by (rewrite Etaps; discriminate).
  rewrite <- Etaps. clear Etaps.
  do 2 eexists.
  split; [now apply convolve_window_sums|].
  split; [now apply convolve_window_sums|].
  rewrite convolve_window_sums by exact Htaps. f_equal.
  apply nth_ext with (d := 0) (d' := a * 0 + b * 0).
  - rewrite length_map, length_seq, Hl. unfold linear_combination.
    rewrite length_map, length_combine, !length_map, !length_seq. lia.
  - intros i Hi. rewrite length_map, length_seq, Hl in Hi.
    rewrite Hl, nth_map_seq by exact Hi.
    set (lhs := window_sum (linear_combination a b xs ys) taps i).
    unfold linear_combination. subst lhs.
    change (a * 0 + b * 0)
      with ((fun xy : Qc * Qc => a * fst xy + b * snd xy) (0, 0)).
    rewrite map_nth, combine_nth by now rewrite !length_map, !length_seq.
    rewrite <- Hlen at 2. rewrite !nth_map_seq by lia. simpl fst. simpl snd.
    unfold window_sum. cbv zeta. simpl num_mul. simpl num_zero.
    rewrite <- sum_upto_linear. apply sum_upto_ext. intros j Hj.
    rewrite !nth_zero_padded.
    destruct (Nat.ltb_spec (length taps - 1 + i - j) (length taps - 1));
      [ring|].
    unfold linear_combination.
    destruct (Nat.lt_ge_cases (length taps - 1 + i - j - (length taps - 1))
                (length xs)) as [Hin|Hout].
    + rewrite nth_indep with (d' := a * 0 + b * 0)
        by (rewrite length_map, length_combine; lia).
      change (a * 0 + b * 0)
        with ((fun xy : Qc * Qc => a * fst xy + b * snd xy) (0, 0)).
      rewrite map_nth, combine_nth by exact Hlen. simpl. ring.
    + rewrite !nth_overflow
        by (try rewrite length_map, length_combine; lia).
      ring.
Qed.

(** ** [scale_taps]: what a normal return gives *)

Lemma map_id_on_empty_lists {B : Type} (f : B -> B) (ls : list (list B)) :
  concat ls = [] -> map (map f) ls = ls.
Proof.
  induction ls as [|l ls IH]; simpl; intros E; [reflexivity|].
  apply app_eq_nil in E. destruct E as [-> E]. simpl. now rewrite IH.
Qed.

(** Whenever [scale_taps] returns, the factor is the running maximum, the
    scaled taps are the quotients, and the factor is positive unless there
    is no tap at all. *)
Lemma scale_taps_returns (tapss scaledtaps : list (list Qc)) (M : Qc) :
  scale_taps tapss = Ok (scaledtaps, M) ->
  M = fold_left update_max tapss 0 /\
  scaledtaps = map (map (fun t => t / M)) tapss /\
  (0 < M /\ Exists (Exists (fun t => t <> 0)) tapss
   \/ M = 0 /\ concat tapss = []).
Proof.
  intros Hs.
  destruct (all_zero_or_some_nonzero (concat tapss)) as [Hz|Hnz].
  - unfold scale_taps in Hs. cbv zeta in Hs.
    rewrite fold_update_max_zero in * by now apply concat_all_zero.
    rewrite comprehension_div_zero in Hs.
    destruct (concat tapss) as [|t ts] eqn:E; simpl in Hs; [|discriminate].
    injection Hs as <- <-.
    split; [reflexivity|]. split; [|now right].
    symmetry. now apply map_id_on_empty_lists.
  - apply concat_some_nonzero in Hnz.
    rewrite (scale_taps_nonzero _ Hnz) in Hs. injection Hs as <- <-.
    split; [reflexivity|]. split; [reflexivity|]. left.
    split; [now apply fold_update_max_pos | exact Hnz].
Qed.

(** What [scale_taps] returns on [some_tapss]. *)
Lemma some_tapss_scaled :
  scale_taps some_tapss
  = Ok (map (map (fun t => t / fold_left update_max some_tapss 0))
          some_tapss,
        fold_left update_max some_tapss 0).
Proof. vm_compute. reflexivity. Qed.

(** X5.  A normal return keeps the shape of the input, and the factor is
    never negative. *)
Theorem scale_taps_keeps_shape (tapss scaledtaps : list (list Qc)) (M : Qc) :
  scale_taps tapss = Ok (scaledtaps, M) ->
  map (@length Qc) scaledtaps = map (@length Qc) tapss /\ 0 <= M.
Proof.
  intros Hs. apply scale_taps_returns in Hs.
  destruct Hs as [_ [-> Hcases]]. split.
  - rewrite map_map. apply map_ext. intros taps. apply length_map.
  - destruct Hcases as [[HM _]|[-> _]];
      [now apply Qclt_le_weak | apply Qcle_refl].
Qed.

Lemma scaled_sum_abs_le_1 (tapss scaledtaps : list (list Qc)) (M : Qc) :
  scale_taps tapss = Ok (scaledtaps, M) ->
  Forall (fun taps => sum_abs taps <= 1) scaledtaps.
Proof.
  intros Hs. apply scale_taps_returns in Hs.
  destruct Hs as [HM [-> [[Hpos _]|[HM0 Hempty]]]].
  - apply Forall_map.
    eapply Forall_impl; [|apply (fold_update_max_upper tapss 0)].
    intros taps Hle. rewrite <- HM in Hle.
    rewrite sum_abs_div by exact Hpos. now apply Qcdiv_le_1.
  - rewrite map_id_on_empty_lists by exact Hempty.
    apply Forall_forall. intros taps Hin.
    assert (Et : taps = []).
    { clear -Hin Hempty. induction tapss as [|l ls IH]; [contradiction|].
      simpl in Hempty. apply app_eq_nil in Hempty. destruct Hempty as [El E].
      destruct Hin as [<-|Hin]; [exact El | now apply IH]. }
    rewrite Et. discriminate.
Qed.

(** X6.  Scaling twice changes nothing more: the scaled taps are returned
    unchanged, with the factor 1 (or 0 when there is no tap). *)
Theorem scale_taps_idempotent (tapss scaledtaps : list (list Qc)) (M : Qc) :
  scale_taps tapss = Ok (scaledtaps, M) ->
  scale_taps scaledtaps
  = Ok (scaledtaps, if Qc_eq_bool M 0 then 0 else 1).
Proof.
  intros Hs. pose proof (scaled_sum_abs_le_1 _ _ _ Hs) as Hle.
  pose proof Hs as Hr. apply scale_taps_returns in Hr.
  destruct Hr as [HM [Hsc [[Hpos Hnz]|[HM0 Hempty]]]].
  - assert (HMne : M <> 0) by now apply Qc_pos_neq_0.
    apply Qc_eq_bool_false in HMne. rewrite HMne.
    assert (Hnz' : Exists (Exists (fun t => t <> 0)) scaledtaps).
    { rewrite Hsc. apply Exists_exists in Hnz. destruct Hnz as [taps [Hin Ht]].
      apply Exists_exists. exists (map (fun t => t / M) taps).
      split; [exact (in_map (map (fun t => t / M)) _ _ Hin)|].
      apply Exists_exists in Ht. destruct Ht as [t [Hint Htne]].
      apply Exists_exists. exists (t / M).
      split; [exact (in_map (fun t => t / M) _ _ Hint)|].
      intros E. apply Htne.
      apply Qc_eq_bool_false in HMne.
      replace t with (t / M * M) by (field; exact HMne).
      rewrite E. ring. }
    assert (Hmax : fold_left update_max scaledtaps 0 = 1).
    { apply Qcle_antisym.
      - assert (Hne : scaledtaps <> [])
          by (intros E; rewrite E in Hnz'; inversion Hnz').
        pose proof (fold_update_max_is_max scaledtaps Hne) as Hin.
        apply in_map_iff in Hin. destruct Hin as [taps [<- Hin]].
        rewrite Forall_forall in Hle. now apply Hle.
      - assert (Hne : tapss <> [])
          by (intros E; rewrite E in Hnz; inversion Hnz).
        pose proof (fold_update_max_is_max tapss Hne) as Hin.
        apply in_map_iff in Hin. destruct Hin as [taps [Hsum Hin]].
        rewrite <- HM in Hsum.
        pose proof (fold_update_max_upper scaledtaps 0) as Hup.
        rewrite Forall_forall in Hup.
        specialize (Hup (map (fun t => t / M) taps)).
        rewrite sum_abs_div, Hsum in Hup by exact Hpos.
        unfold Qcdiv in Hup. rewrite Qcmult_inv_r in Hup
          by now apply Qc_pos_neq_0.
        apply Hup. rewrite Hsc.
        exact (in_map (map (fun t => t / M)) _ _ Hin). }
    rewrite (scale_taps_nonzero _ Hnz'), Hmax. f_equal. f_equal.
    rewrite <- (map_id scaledtaps) at 2. apply map_ext. intros taps.
    rewrite <- (map_id taps) at 2. apply map_ext. intros t.
    unfold Qcdiv. field. discriminate.
  - rewrite HM0. replace (Qc_eq_bool 0 0) with true by reflexivity.
    rewrite Hsc, HM0, map_id_on_empty_lists by exact Hempty.
    rewrite <- HM0.
    rewrite Hsc, HM0, map_id_on_empty_lists in Hs by exact Hempty.
    rewrite Hs, HM0. reflexivity.
Qed.

(** ** [scale_taps] followed by [convolve] *)

Lemma window_sum_scaled_taps (data taps : list Qc) (M : Qc) (i : nat) :
  window_sum data (map (fun t => t / M) taps) i
  = window_sum data taps i / M.
Proof.
  unfold window_sum. cbv zeta. rewrite length_map.
  simpl num_mul. simpl num_zero. unfold Qcdiv at 2.
  rewrite <- sum_upto_scale_r. apply sum_upto_ext. intros j Hj.
  replace 0 with (0 / M) at 2 by (unfold Qcdiv; ring).
  rewrite (map_nth (fun t => t / M)). unfold Qcdiv. ring.
Qed.

Lemma convolve_scaled_taps (data taps : list Qc) (M : Qc) :
  exists out,
    convolve data taps = Ok out /\
    convolve data (map (fun t => t / M) taps) = Ok (map (fun v => v / M) out).
Proof.
  destruct taps as [|t taps'] eqn:E.
  - eexists. split; [apply convolve_nil_taps|].
    simpl map at 1. rewrite convolve_nil_taps. f_equal.
    rewrite map_repeat. f_equal. simpl. unfold Qcdiv. ring.
  - rewrite <- E.
    assert (Hne : taps <> []) by (rewrite E; discriminate).
    eexists. split; [now apply convolve_window_sums|].
    rewrite convolve_window_sums
      by (intros Em; apply map_eq_nil in Em; contradiction).
    rewrite map_map. f_equal.
    apply map_ext. intros i. apply window_sum_scaled_taps.
Qed.

(** X7.  Filtering with the scaled taps gives, filter by filter, the
    response of the original taps divided by the returned factor. *)
Theorem scaled_taps_scale_the_response (data : list Qc)
  (tapss scaledtaps : list (list Qc)) (M : Qc) :
  scale_taps tapss = Ok (scaledtaps, M) ->
  Forall2
    (fun taps chantaps =>
       exists out,
         convolve data taps = Ok out /\
         convolve data chantaps = Ok (map (fun v => v / M) out))
    tapss scaledtaps.
Proof.
  intros Hs. apply scale_taps_returns in Hs. destruct Hs as [_ [-> _]].
  induction tapss as [|taps tapss IH]; simpl; constructor.
  - apply convolve_scaled_taps.
  - exact IH.
Qed.

(** ** The scaled taps keep the output in the range of the input *)

Lemma sum_abs_snoc (taps : list Qc) (t : Qc) :
  sum_abs (taps ++ [t]) = sum_abs taps + Qcabs t.
Proof.
  unfold sum_abs, py_sum. now rewrite map_app, fold_left_app.
Qed.

Lemma sum_abs_sum_upto (taps : list Qc) :
  sum_abs taps = sum_upto (length taps) (fun j => Qcabs (nth j taps 0)).
Proof.
  induction taps as [|t taps IH] using rev_ind; [reflexivity|].
  rewrite sum_abs_snoc, length_app, Nat.add_1_r. simpl sum_upto.
  rewrite IH. simpl num_add. f_equal.
  - apply sum_upto_ext. intros j Hj. now rewrite app_nth1.
  - now rewrite app_nth2, Nat.sub_diag by lia.
Qed.

Lemma abs_sum_upto_le (n : nat) (B : Qc) (a t : nat -> Qc) :
  (forall j, (j < n)%nat -> Qcabs (a j) <= B) ->
  Qcabs (sum_upto n (fun j => a j * t j))
  <= B * sum_upto n (fun j => Qcabs (t j)).
Proof.
  intros Ha. induction n as [|n IH]; simpl.
  - simpl num_zero. rewrite Qcmult_0_r, Qcabs_pos; apply Qcle_refl.
  - eapply Qcle_trans; [apply Qcabs_triangle|].
    rewrite Qcmult_plus_distr_r.
    apply Qcplus_le_compat; [apply IH; auto|].
    rewrite Qcabs_Qcmult.
    apply Qcmult_le_compat_r; [apply Ha; lia | apply Qcabs_nonneg].
Qed.

Lemma abs_nth_zero_padded (pad q : nat) (data : list Qc) (B : Qc) :
  0 <= B ->
  Forall (fun d => Qcabs d <= B) data ->
  Qcabs (nth q (zero_padded pad data) 0) <= B.
Proof.
  intros HB Hdata. rewrite nth_zero_padded.
  destruct (q <? pad)%nat; [exact HB|].
  destruct (Nat.lt_ge_cases (q - pad) (length data)) as [Hin|Hout].
  - rewrite Forall_forall in Hdata. apply Hdata. now apply nth_In.
  - now rewrite nth_overflow.
Qed.

Lemma abs_window_sum_le (data taps : list Qc) (B : Qc) (i : nat) :
  0 <= B ->
  Forall (fun d => Qcabs d <= B) data ->
  Qcabs (window_sum data taps i) <= B * sum_abs taps.
Proof.
  intros HB Hdata. unfold window_sum. cbv zeta.
  simpl num_mul. simpl num_zero. rewrite sum_abs_sum_upto.
  apply (abs_sum_upto_le (length taps) B
           (fun j => nth (length taps - 1 + i - j)
                       (zero_padded (length taps - 1) data) 0)
           (fun j => nth j taps 0)).
  intros j _. now apply abs_nth_zero_padded.
Qed.

(** With scaled taps, samples within [-B, B] give outputs within [-B, B]. *)
Lemma scaled_taps_bound_outputs (data : list Qc)
  (tapss scaledtaps : list (list Qc)) (M B : Qc) :
  0 <= B ->
  Forall (fun d => Qcabs d <= B) data ->
  scale_taps tapss = Ok (scaledtaps, M) ->
  Forall
    (fun chantaps =>
       exists out,
         convolve data chantaps = Ok out /\
         Forall (fun v => Qcabs v <= B) out)
    scaledtaps.
Proof.
  intros HB Hdata Hs. pose proof (scaled_sum_abs_le_1 _ _ _ Hs) as Hle.
  eapply Forall_impl; [|exact Hle]. intros chantaps Hsum. simpl in Hsum.
  destruct chantaps as [|t taps'] eqn:E.
  - eexists. split; [apply convolve_nil_taps|].
    apply Forall_forall. intros v Hv. apply repeat_spec in Hv.
    subst v. exact HB.
  - rewrite <- E in *.
    assert (Hne : chantaps <> []) by (rewrite E; discriminate).
    eexists. split; [now apply convolve_window_sums|].
    apply Forall_forall. intros v Hv. apply in_map_iff in Hv.
    destruct Hv as [i [<- _]].
    apply Qcle_trans with (B * sum_abs chantaps);
      [apply abs_window_sum_le; assumption|].
    rewrite <- (Qcmult_1_r B) at 2. rewrite !(Qcmult_comm B).
    now apply Qcmult_le_compat_r.
Qed.

(** X8.  The scaling prevents overflow: when every sample lies within
    [-B, B], every output of every scaled filter lies within [-B, B]. *)
Theorem scaled_taps_prevent_overflow (data : list Qc)
  (tapss scaledtaps : list (list Qc)) (M B : Qc) :
  0 <= B ->
  Forall (fun d => Qcabs d <= B) data ->
  scale_taps tapss = Ok (scaledtaps, M) ->
  Forall
    (fun chantaps =>
       exists out,
         convolve data chantaps = Ok out /\
         Forall (fun v => Qcabs v <= B) out)
    scaledtaps.
Proof. exact (scaled_taps_bound_outputs data tapss scaledtaps M B). Qed.

(** ** [convolve] as a filter: impulse response, shift invariance *)

Lemma sum_upto_zero (n : nat) (g : nat -> Qc) :
  (forall j, (j < n)%nat -> g j = 0) -> sum_upto n g = 0.
Proof.
  induction n as [|n IH]; intros Hg; simpl; [reflexivity|].
  rewrite IH, Hg by auto. reflexivity.
Qed.

Lemma nth_impulse (m q : nat) :
  nth q (1 :: repeat 0 m) 0 = if (q =? 0)%nat then 1 else 0.
Proof.
  destruct q as [|q]; simpl; [reflexivity|].
  destruct (Nat.lt_ge_cases q m) as [Hlt|Hge].
  - now rewrite nth_repeat_lt.
  - now rewrite nth_overflow by (rewrite repeat_length; lia).
Qed.

(** X20.  The response to a unit impulse is the sequence of the taps, cut
    or filled with zeros to the length of the input. *)
Theorem convolve_impulse_response (taps : list Qc) (m : nat) :
  taps <> [] ->
  convolve (1 :: repeat 0 m) taps
  = Ok (firstn (S m) (taps ++ repeat 0 (S m))).
Proof.
  intros Htaps. rewrite convolve_window_sums by exact Htaps.
  assert (HL : (1 <= length taps)%nat)
    by (destruct taps; [congruence | simpl; lia]).
  assert (Hn : length (1 :: repeat 0 m) = S m)
    by (simpl; now rewrite repeat_length).
  rewrite Hn. f_equal. apply nth_ext with (d := 0) (d' := 0).
  - rewrite length_map, length_seq, length_firstn, length_app, repeat_length.
    lia.
  - intros i Hi. rewrite length_map, length_seq in Hi.
    rewrite nth_map_seq by exact Hi.
    rewrite nth_firstn.
    destruct (Nat.ltb_spec i (S m)) as [_|Hge]; [|lia].
    unfold window_sum. cbv zeta. simpl num_mul. simpl num_zero.
    destruct (Nat.lt_ge_cases i (length taps)) as [Hin|Hout].
    + rewrite app_nth1 by exact Hin.
      rewrite sum_upto_single with (k := i); [|exact Hin|].
      * rewrite nth_zero_padded.
        destruct (Nat.ltb_spec (length taps - 1 + i - i) (length taps - 1));
          [lia|].
        replace (length taps - 1 + i - i - (length taps - 1))%nat
          with 0%nat by lia.
        simpl nth. apply Qcmult_1_l.
      * intros j Hj Hne. rewrite nth_zero_padded.
        destruct (Nat.ltb_spec (length taps - 1 + i - j) (length taps - 1));
          [apply Qcmult_0_l|].
        rewrite nth_impulse.
        destruct (Nat.eqb_spec
                    (length taps - 1 + i - j - (length taps - 1)) 0);
          [lia | apply Qcmult_0_l].
    + rewrite app_nth2 by exact Hout.
      rewrite nth_repeat_lt by lia.
      apply sum_upto_zero. intros j Hj. rewrite nth_zero_padded.
      destruct (Nat.ltb_spec (length taps - 1 + i - j) (length taps - 1));
        [apply Qcmult_0_l|].
      rewrite nth_impulse.
      destruct (Nat.eqb_spec
                  (length taps - 1 + i - j - (length taps - 1)) 0);
        [lia | apply Qcmult_0_l].
Qed.

Lemma convolve_impulse_response_witness :
  [Q2Qc 5; Q2Qc 7] <> [] /\
  convolve (1 :: repeat 0 3) [Q2Qc 5; Q2Qc 7]
  = Ok (firstn 4 ([Q2Qc 5; Q2Qc 7] ++ repeat 0 4)).
Proof.
  assert (Htaps : [Q2Qc 5; Q2Qc 7] <> []) by discriminate.
  split; [exact Htaps|].
  exact (convolve_impulse_response [Q2Qc 5; Q2Qc 7] 3 Htaps).
Defined.

(** X21.  [convolve] is shift invariant: [k] zeros put in front of the
    samples put [k] zeros in front of the output. *)
Theorem convolve_shift_invariant (data taps : list Qc) (k : nat) :
  exists out,
    convolve data taps = Ok out /\
    convolve (repeat 0 k ++ data) taps = Ok (repeat 0 k ++ out).
Proof.
  destruct taps as [|t taps'] eqn:E.
  - eexists. rewrite !convolve_nil_taps. split; [reflexivity|].
    simpl num_zero. rewrite length_app, repeat_length, <- repeat_app.
    f_equal. f_equal. lia.
  - rewrite <- E.
    assert (Hne : taps <> []) by (rewrite E; discriminate).
    eexists. split; [now apply convolve_window_sums|].
    rewrite convolve_window_sums by exact Hne. f_equal.
    rewrite length_app, repeat_length.
    apply nth_ext with (d := 0) (d' := 0).
    + rewrite length_app, !length_map, !length_seq, repeat_length.
      reflexivity.
    + intros i Hi. rewrite length_map, length_seq in Hi.
      rewrite nth_map_seq by exact Hi.
      unfold window_sum. cbv zeta. simpl num_mul. simpl num_zero.
      change (repeat (Q2Qc 0) k ++ data) with (zero_padded k data).
      destruct (Nat.lt_ge_cases i k) as [Hlt|Hge].
      * rewrite app_nth1 by (rewrite repeat_length; exact Hlt).
        rewrite nth_repeat_lt by exact Hlt.
        apply sum_upto_zero. intros j Hj.
        rewrite nth_zero_padded.
        destruct (Nat.ltb_spec (length taps - 1 + i - j) (length taps - 1));
          [apply Qcmult_0_l|].
        rewrite nth_zero_padded.
        destruct (Nat.ltb_spec
                    (length taps - 1 + i - j - (length taps - 1)) k);
          [apply Qcmult_0_l | lia].
      * rewrite app_nth2 by (rewrite repeat_length; exact Hge).
        rewrite repeat_length, nth_map_seq by lia.
        unfold window_sum. cbv zeta. simpl num_mul. simpl num_zero.
        apply sum_upto_ext. intros j Hj. f_equal.
        rewrite !nth_zero_padded.
        destruct (Nat.ltb_spec (length taps - 1 + i - j) (length taps - 1)).
        -- destruct (Nat.ltb_spec (length taps - 1 + (i - k) - j)
                       (length taps - 1)); [reflexivity | lia].
        -- destruct (Nat.ltb_spec
                        (length taps - 1 + i - j - (length taps - 1)) k);
             destruct (Nat.ltb_spec (length taps - 1 + (i - k) - j)
                         (length taps - 1)); try lia; [reflexivity|].
           f_equal. lia.
Qed.

(** ** [scale_taps] depends only on the ratios of the taps *)

Lemma Qcmult_pos_lt_compat (c x y : Qc) : 0 < c -> x < y -> c * x < c * y.
Proof.
  intros Hc Hxy. rewrite !(Qcmult_comm c). now apply Qcmult_lt_compat_r.
Qed.

Lemma sum_abs_scale (c : Qc) (taps : list Qc) :
  0 < c -> sum_abs (map (fun t => c * t) taps) = c * sum_abs taps.
Proof.
  intros Hc. induction taps as [|t taps IH]; simpl.
  - unfold sum_abs, py_sum. simpl. ring.
  - rewrite !sum_abs_cons, IH, Qcabs_Qcmult, (Qcabs_pos c);
      [ring | now apply Qclt_le_weak].
Qed.

Lemma update_max_scale (c m : Qc) (taps : list Qc) :
  0 < c ->
  update_max (c * m) (map (fun t => c * t) taps) = c * update_max m taps.
Proof.
  intros Hc. unfold update_max. rewrite sum_abs_scale by exact Hc.
  destruct (Qcltb m (sum_abs taps)) eqn:E.
  - apply Qcltb_lt in E.
    assert (E' : Qcltb (c * m) (c * sum_abs taps) = true)
      by now apply Qcltb_lt, Qcmult_pos_lt_compat.
    now rewrite E'.
  - apply Qcltb_ge in E.
    assert (E' : Qcltb (c * m) (c * sum_abs taps) = false).
    { apply Qcltb_ge. rewrite !(Qcmult_comm c).
      apply Qcmult_le_compat_r; [exact E | now apply Qclt_le_weak]. }
    now rewrite E'.
Qed.

Lemma fold_update_max_scale (c m : Qc) (tapss : list (list Qc)) :
  0 < c ->
  fold_left update_max (map (map (fun t => c * t)) tapss) (c * m)
  = c * fold_left update_max tapss m.
Proof.
  intros Hc. revert m. induction tapss as [|taps tapss IH]; intros m; simpl.
  - reflexivity.
  - rewrite update_max_scale by exact Hc. apply IH.
Qed.

(** X22.  Multiplying every tap by the same positive number gives the same
    scaled taps, and multiplies the returned factor by that number. *)
Theorem scale_taps_positively_homogeneous (c : Qc)
  (tapss scaledtaps : list (list Qc)) (M : Qc) :
  0 < c ->
  scale_taps tapss = Ok (scaledtaps, M) ->
  scale_taps (map (map (fun t => c * t)) tapss) = Ok (scaledtaps, c * M).
Proof.
  intros Hc Hs. apply scale_taps_returns in Hs.
  destruct Hs as [HM [Hsc [[Hpos Hnz]|[HM0 Hempty]]]].
  - assert (Hnz' : Exists (Exists (fun t => t <> 0))
                     (map (map (fun t => c * t)) tapss)).
    { apply Exists_exists in Hnz. destruct Hnz as [taps [Hin Ht]].
      apply Exists_exists. exists (map (fun t => c * t) taps).
      split; [exact (in_map (map (fun t => c * t)) _ _ Hin)|].
      apply Exists_exists in Ht. destruct Ht as [t [Hint Htne]].
      apply Exists_exists. exists (c * t).
      split; [exact (in_map (fun t => c * t) _ _ Hint)|].
      intros E. apply Qcmult_integral in E.
      destruct E as [E|E]; [|contradiction].
      apply Qc_pos_neq_0 in Hc. contradiction. }
    assert (Hfold : fold_left update_max (map (map (fun t => c * t)) tapss) 0
                    = c * M).
    { rewrite HM, <- fold_update_max_scale by exact Hc.
      f_equal. ring. }
    rewrite (scale_taps_nonzero _ Hnz'), Hfold.
    f_equal. f_equal. rewrite Hsc, map_map. apply map_ext. intros taps.
    rewrite map_map. apply map_ext. intros t. field.
    split; now apply Qc_pos_neq_0.
  - assert (Hmap : map (map (fun t => c * t)) tapss = tapss)
      by now apply map_id_on_empty_lists.
    rewrite Hmap. unfold scale_taps. cbv zeta.
    rewrite fold_update_max_zero
      by (apply concat_all_zero; rewrite Hempty; constructor).
    rewrite comprehension_div_zero, Hempty. simpl.
    rewrite Hsc, HM0, map_id_on_empty_lists by exact Hempty.
    f_equal. f_equal. ring.
Qed.

Lemma scale_taps_positively_homogeneous_witness :
  0 < Q2Qc 3 /\
  scale_taps some_tapss
  = Ok (map (map (fun t => t / fold_left update_max some_tapss 0))
          some_tapss,
        fold_left update_max some_tapss 0) /\
  scale_taps (map (map (fun t => Q2Qc 3 * t)) some_tapss)
  = Ok (map (map (fun t => t / fold_left update_max some_tapss 0))
          some_tapss,
        Q2Qc 3 * fold_left update_max some_tapss 0).
Proof.
  assert (Hc : 0 < Q2Qc 3) by reflexivity.
  split; [exact Hc|]. split; [exact some_tapss_scaled|].
  exact (scale_taps_positively_homogeneous (Q2Qc 3) some_tapss _ _ Hc
           some_tapss_scaled).
Defined.

(** ** Complex samples through real taps *)

Lemma real_sum_upto (n : nat) (F : nat -> complex) :
  real (sum_upto n F) = sum_upto n (fun j => real (F j)).
Proof.
  induction n as [|n IH]; simpl; [reflexivity|]. now rewrite IH.
Qed.

Lemma imag_sum_upto (n : nat) (F : nat -> complex) :
  imag (sum_upto n F) = sum_upto n (fun j => imag (F j)).
Proof.
  induction n as [|n IH]; simpl; [reflexivity|]. now rewrite IH.
Qed.

Lemma nth_complex_taps (taps : list Qc) (j : nat) :
  nth j (map complex_of_float taps) (Complex 0 0)
  = complex_of_float (nth j taps 0).
Proof.
  change (Complex 0 0) with (complex_of_float 0). apply map_nth.
Qed.

Lemma map_zero_padded (part : complex -> Qc) (pad : nat)
  (data : list complex) :
  part (Complex 0 0) = 0 ->
  map part (zero_padded pad data) = zero_padded pad (map part data).
Proof.
  intros Hpart. unfold zero_padded. simpl num_zero.
  now rewrite map_app, map_repeat, Hpart.
Qed.

Lemma part_nth_zero_padded (part : complex -> Qc) (pad q : nat)
  (data : list complex) :
  part (Complex 0 0) = 0 ->
  part (nth q (zero_padded pad data) (Complex 0 0))
  = nth q (zero_padded pad (map part data)) 0.
Proof.
  intros Hpart. rewrite <- (map_zero_padded part) by exact Hpart.
  rewrite <- (map_nth part). now rewrite Hpart.
Qed.

Lemma real_window_sum (data : list complex) (taps : list Qc) (i : nat) :
  real (window_sum data (map complex_of_float taps) i)
  = window_sum (map real data) taps i.
Proof.
  unfold window_sum. cbv zeta. rewrite length_map, real_sum_upto.
  apply sum_upto_ext. intros j Hj. simpl num_zero. simpl num_mul.
  rewrite nth_complex_taps.
  rewrite <- (part_nth_zero_padded real) by reflexivity.
  unfold complex_mul, complex_of_float. simpl. ring.
Qed.

Lemma imag_window_sum (data : list complex) (taps : list Qc) (i : nat) :
  imag (window_sum data (map complex_of_float taps) i)
  = window_sum (map imag data) taps i.
Proof.
  unfold window_sum. cbv zeta. rewrite length_map, imag_sum_upto.
  apply sum_upto_ext. intros j Hj. simpl num_zero. simpl num_mul.
  rewrite nth_complex_taps.
  rewrite <- (part_nth_zero_padded imag) by reflexivity.
  unfold complex_mul, complex_of_float. simpl. ring.
Qed.

(** The parts of the output are the outputs for the parts. *)
Lemma convolve_parts (data : list complex) (taps : list Qc) :
  exists out,
    convolve data (map complex_of_float taps) = Ok out /\
    convolve (map real data) taps = Ok (map real out) /\
    convolve (map imag data) taps = Ok (map imag out).
Proof.
  destruct taps as [|t taps'] eqn:E.
  - eexists. simpl map at 1. rewrite !convolve_nil_taps.
    split; [reflexivity|]. rewrite !map_repeat, !length_map. now split.
  - rewrite <- E.
    assert (Hne : taps <> []) by (rewrite E; discriminate).
    assert (Hne' : map complex_of_float taps <> [])
      by (intros Em; apply map_eq_nil in Em; contradiction).
    eexists. split; [now apply convolve_window_sums|].
    rewrite !convolve_window_sums by exact Hne.
    rewrite !map_map, !length_map.
    split; f_equal; apply map_ext; intros i; symmetry;
      [apply real_window_sum | apply imag_window_sum].
Qed.

(** X18.  Real taps filter the real and the imaginary parts of complex
    samples separately: the parts of the output are the outputs for the
    parts. *)
Theorem convolve_complex_by_parts (data : list complex) (taps : list Qc) :
  exists out,
    convolve data (map complex_of_float taps) = Ok out /\
    convolve (map real data) taps = Ok (map real out) /\
    convolve (map imag data) taps = Ok (map imag out).
Proof. exact (convolve_parts data taps). Qed.

(** X19.  The scaling prevents overflow on complex samples: when the real
    and the imaginary part of every sample lie within [-B, B], so do those
    of every output of every scaled filter. *)
Theorem scaled_taps_prevent_overflow_complex (data : list complex)
  (tapss scaledtaps : list (list Qc)) (M B : Qc) :
  0 <= B ->
  Forall (fun d => Qcabs (real d) <= B /\ Qcabs (imag d) <= B) data ->
  scale_taps tapss = Ok (scaledtaps, M) ->
  Forall
    (fun chantaps =>
       exists out,
         convolve data (map complex_of_float chantaps) = Ok out /\
         Forall (fun v => Qcabs (real v) <= B /\ Qcabs (imag v) <= B) out)
    scaledtaps.
Proof.
  intros HB Hdata Hs.
  assert (Hre : Forall (fun d => Qcabs d <= B) (map real data)).
  { apply Forall_map. eapply Forall_impl; [|exact Hdata]. now intros d [H _]. }
  assert (Him : Forall (fun d => Qcabs d <= B) (map imag data)).
  { apply Forall_map. eapply Forall_impl; [|exact Hdata]. now intros d [_ H]. }
  pose proof (scaled_taps_bound_outputs (map real data) tapss scaledtaps
                M B HB Hre Hs) as Hr.
  pose proof (scaled_taps_bound_outputs (map imag data) tapss scaledtaps
                M B HB Him Hs) as Hi.
  rewrite Forall_forall in *. intros chantaps Hin.
  destruct (convolve_parts data chantaps)
    as [out [Hout [Hor Hoi]]].
  exists out. split; [exact Hout|].
  destruct (Hr chantaps Hin) as [out_r [Er Hbr]].
  destruct (Hi chantaps Hin) as [out_i [Ei Hbi]].
  rewrite Hor in Er. injection Er as <-.
  rewrite Hoi in Ei. injection Ei as <-.
  rewrite Forall_map in Hbr, Hbi. rewrite Forall_forall in Hbr, Hbi.
  apply Forall_forall. intros v Hv. split; [now apply Hbr | now apply Hbi].
Qed.

(** ** [prune_zeros]: round trip and idempotence *)

Section PruneZerosRoundTrip.

Variable A : Type.
Variable nonzero : A -> bool.

(** The run of zeros in front of the first nonzero element is determined by
    the list. *)
Lemma zero_prefix_unique (pre pre' : list A) (x x' : A) (t t' : list A) :
  Forall (fun z => nonzero z = false) pre ->
  Forall (fun z => nonzero z = false) pre' ->
  nonzero x = true ->
  nonzero x' = true ->
  pre ++ x :: t = pre' ++ x' :: t' ->
  pre = pre' /\ x :: t = x' :: t'.
Proof.
  intros Hpre. revert pre'.
  induction Hpre as [|z pre Hz _ IH]; intros pre' Hpre' Hx Hx' E.
  - destruct Hpre' as [|z' pre' Hz' _]; [now split|].
    simpl in E. injection E as -> _. congruence.
  - destruct Hpre' as [|z' pre' Hz' Hpre'].
    + simpl in E. injection E as <- _. congruence.
    + simpl in E. injection E as <- E.
      destruct (IH pre' Hpre' Hx Hx' E) as [-> Et]. now split.
Qed.

Lemma trimmed_ends (x : A) (t : list A) :
  trimmed nonzero (x :: t) ->
  exists r0 y, x :: t = r0 ++ [y] /\ nonzero y = true.
Proof.
  intros [_ Hlast].
  exists (removelast (x :: t)), (last (x :: t) x).
  split; [apply app_removelast_last; discriminate | exact Hlast].
Qed.

Lemma nonzero_not_in_zeros (zs : list A) (x : A) :
  Forall (fun z => nonzero z = false) zs -> nonzero x = true -> ~ In x zs.
Proof.
  intros Hz Hx Hin. rewrite Forall_forall in Hz. apply Hz in Hin. congruence.
Qed.

(** The decomposition of C8 is the only one. *)
Lemma trimmed_unique (pre r suf pre' r' suf' : list A) :
  Forall (fun z => nonzero z = false) pre ->
  Forall (fun z => nonzero z = false) suf ->
  Forall (fun z => nonzero z = false) pre' ->
  Forall (fun z => nonzero z = false) suf' ->
  trimmed nonzero r -> trimmed nonzero r' ->
  r <> [] -> r' <> [] ->
  pre ++ r ++ suf = pre' ++ r' ++ suf' ->
  r = r'.
Proof.
  intros Hpre Hsuf Hpre' Hsuf' Hr Hr' Hne Hne' E.
  destruct r as [|x t]; [congruence|].
  destruct r' as [|x' t']; [congruence|].
  pose proof Hr as [Hx _]. pose proof Hr' as [Hx' _].
  simpl in E.
  destruct (zero_prefix_unique pre pre' x x' (t ++ suf) (t' ++ suf')
              Hpre Hpre' Hx Hx' E) as [_ E'].
  destruct (trimmed_ends x t Hr) as [r0 [y [Er Hy]]].
  destruct (trimmed_ends x' t' Hr') as [r0' [y' [Er' Hy']]].
  change (x :: t ++ suf) with ((x :: t) ++ suf) in E'.
  change (x' :: t' ++ suf') with ((x' :: t') ++ suf') in E'.
  rewrite Er, Er' in *.
  apply (f_equal (@rev A)) in E'.
  rewrite !rev_app_distr in E'. simpl in E'.
  destruct (zero_prefix_unique (rev suf) (rev suf') y y' (rev r0) (rev r0'))
    as [_ Erev]; try assumption.
  - now apply Forall_rev.
  - now apply Forall_rev.
  - injection Erev as -> Erev.
    apply (f_equal (@rev A)) in Erev. rewrite !rev_involutive in Erev.
    now rewrite Erev.
Qed.

(** A trimmed list between two runs of zeros is found again. *)
Lemma prune_zeros_padded (pre r suf : list A) :
  Forall (fun z => nonzero z = false) pre ->
  Forall (fun z => nonzero z = false) suf ->
  trimmed nonzero r ->
  prune_zeros nonzero (pre ++ r ++ suf) = Ok r.
Proof.
  intros Hpre Hsuf Hr. unfold prune_zeros.
  destruct (found_loop A nonzero (pre ++ r ++ suf))
    as [Hz | pre' r' suf' y Hxs Hpre' Hsuf' Hhd Hy Hlast].
  - destruct r as [|x t]; [reflexivity|].
    destruct Hr as [Hx _]. exfalso.
    apply (nonzero_not_in_zeros (pre ++ (x :: t) ++ suf) x Hz Hx).
    apply in_or_app. right. now left.
  - assert (Hne' : r' <> []) by (destruct r'; [discriminate | congruence]).
    assert (Hr' : trimmed nonzero r').
    { destruct r' as [|x' t']; [congruence|].
      simpl in Hhd. injection Hhd as ->. now split. }
    rewrite Hxs at 1. rewrite py_slice_middle by exact Hne'.
    f_equal. destruct r as [|x t].
    + exfalso. destruct r' as [|x' t']; [congruence|].
      destruct Hr' as [Hx' _].
      apply (nonzero_not_in_zeros (pre ++ suf) x').
      * apply Forall_app. now split.
      * exact Hx'.
      * simpl in Hxs. rewrite Hxs. apply in_or_app. right. now left.
    + symmetry.
      apply (trimmed_unique pre (x :: t) suf pre' r' suf'); try assumption.
      discriminate.
Qed.

(** X9.  Round trip: a list that starts and ends with a nonzero element,
    put between two runs of zeros, is given back exactly. *)
Theorem prune_zeros_undoes_padding (pre r suf : list A) :
  Forall (fun z => nonzero z = false) pre ->
  Forall (fun z => nonzero z = false) suf ->
  trimmed nonzero r ->
  prune_zeros nonzero (pre ++ r ++ suf) = Ok r.
Proof. exact (prune_zeros_padded pre r suf). Qed.

(** What [prune_zeros] returns is itself trimmed. *)
Lemma prune_zeros_trimmed (xs : list A) :
  exists pre r suf,
    prune_zeros nonzero xs = Ok r /\ xs = pre ++ r ++ suf /\
    Forall (fun z => nonzero z = false) pre /\
    Forall (fun z => nonzero z = false) suf /\
    trimmed nonzero r.
Proof.
  unfold prune_zeros.
  destruct (found_loop A nonzero xs)
    as [Hz | pre r suf y Hxs Hpre Hsuf Hhd Hy Hlast].
  - exists xs, [], []. rewrite app_nil_r. repeat split; auto.
  - exists pre, r, suf.
    assert (Hr : r <> []) by (destruct r; [discriminate | congruence]).
    rewrite Hxs at 1. rewrite py_slice_middle by exact Hr.
    repeat split; auto.
    destruct r as [|x r']; [congruence|].
    simpl in Hhd. injection Hhd as ->. now split.
Qed.

(** X10.  [prune_zeros] is idempotent. *)
Theorem prune_zeros_idempotent (xs r : list A) :
  prune_zeros nonzero xs = Ok r ->
  prune_zeros nonzero r = Ok r.
Proof.
  intros Hxs.
  destruct (prune_zeros_trimmed xs) as [pre [r' [suf [Hr' [_ [_ [_ Ht]]]]]]].
  rewrite Hxs in Hr'. injection Hr' as <-.
  pose proof (prune_zeros_padded [] r []
                (Forall_nil _) (Forall_nil _) Ht) as H.
  simpl in H. now rewrite app_nil_r in H.
Qed.

(** X11.  Zeros added in front of a list or behind it do not change the
    result. *)
Theorem prune_zeros_ignores_zero_padding (pre xs suf : list A) :
  Forall (fun z => nonzero z = false) pre ->
  Forall (fun z => nonzero z = false) suf ->
  prune_zeros nonzero (pre ++ xs ++ suf) = prune_zeros nonzero xs.
Proof.
  intros Hpre Hsuf.
  destruct (prune_zeros_trimmed xs) as [p [r [s [Hr [Hxs [Hp [Hs Ht]]]]]]].
  rewrite Hr. rewrite Hxs.
  replace (pre ++ (p ++ r ++ s) ++ suf) with ((pre ++ p) ++ r ++ (s ++ suf))
    by now rewrite <- !app_assoc.
  apply prune_zeros_padded; [| | exact Ht];
    apply Forall_app; now split.
Qed.

End PruneZerosRoundTrip.

(** ** The streams of the filterbank tests *)

Lemma nth_error_every_nth {A : Type} (step skip k : nat) (xs : list A) :
  (1 <= step)%nat ->
  nth_error (every_nth step skip xs) k = nth_error xs (skip + k * step).
Proof.
  intros Hstep. revert skip k.
  induction xs as [|x xs IH]; intros skip k.
  - simpl. now rewrite !nth_error_nil.
  - destruct skip as [|s]; simpl.
    + destruct k as [|k]; simpl; [reflexivity|].
      rewrite IH. destruct step as [|step]; [lia|].
      simpl. f_equal. lia.
    + apply IH.
Qed.

(** X12.  The slices [xs[i::n]] of the tests de-interleave [xs]: sample [k]
    of stream [i] is sample [i + k * n] of [xs], and the stream ends where
    [xs] does. *)
Theorem streams_deinterleave {A : Type} (xs : list A) (i n : Z) (k : nat) :
  (0 <= i)%Z ->
  (1 <= n)%Z ->
  nth_error (py_slice_step xs i n) k
  = nth_error xs (Z.to_nat (i + Z.of_nat k * n)).
Proof.
  intros Hi Hn. unfold py_slice_step.
  rewrite nth_error_every_nth by lia. f_equal. nia.
Qed.

Lemma streams_deinterleave_witness :
  (0 <= 1)%Z /\ (1 <= 4)%Z /\
  nth_error (py_slice_step [10; 11; 12; 13; 14; 15; 16; 17; 18; 19]%Z 1 4) 2
  = nth_error [10; 11; 12; 13; 14; 15; 16; 17; 18; 19]%Z
      (Z.to_nat (1 + Z.of_nat 2 * 4)).
Proof.
  assert (Hi : (0 <= 1)%Z) by lia.
  assert (Hn : (1 <= 4)%Z) by lia.
  split; [exact Hi|]. split; [exact Hn|].
  exact (streams_deinterleave [10; 11; 12; 13; 14; 15; 16; 17; 18; 19]%Z
           1 4 2 Hi Hn).
Defined.

(** ** The filterbank test does not count the samples *)

Lemma every_nth_firstn {A : Type} (step skip n : nat) (xs : list A) :
  exists m,
    every_nth step skip (firstn n xs) = firstn m (every_nth step skip xs).
Proof.
  revert skip n. induction xs as [|x xs IH]; intros skip n.
  - exists 0%nat. now rewrite firstn_nil.
  - destruct n as [|n]; [now exists 0%nat|].
    destruct skip as [|s]; simpl.
    + destruct (IH (step - 1)%nat n) as [m Hm]. exists (S m).
      now rewrite Hm.
    + apply IH.
Qed.

Lemma Forall_combine_firstn {A B : Type} (P : A * B -> Prop) (m : nat)
  (rs : list A) (es : list B) :
  Forall P (combine rs es) -> Forall P (combine (firstn m rs) es).
Proof.
  revert rs es. induction m as [|m IH]; intros rs es H; [constructor|].
  destruct rs as [|r rs]; [constructor|].
  destruct es as [|e es]; [constructor|].
  simpl in *. inversion H; subst. constructor; auto.
Qed.

Lemma almost_equal_prefix (m : nat) (rs : list complex) (es : list Qc) :
  Forall (fun a => holds a = true)
    (assert_all_almost_equal (map VComplex rs) (map VFloat es) 3) ->
  Forall (fun a => holds a = true)
    (assert_all_almost_equal (map VComplex (firstn m rs)) (map VFloat es) 3).
Proof.
  unfold assert_all_almost_equal. rewrite <- firstn_map, !Forall_map.
  apply Forall_combine_firstn.
Qed.

Lemma sample_assertions_prefix (n : nat) (output : list complex)
  (indices : list Z) (step : Z) (expected : list (list Qc)) :
  Forall (fun a => holds a = true)
    (flat_map
       (fun rs_es =>
          assert_all_almost_equal (map VComplex (fst rs_es))
            (map VFloat (snd rs_es)) 3)
       (combine (map (fun i => py_slice_step output i step) indices)
          expected)) ->
  Forall (fun a => holds a = true)
    (flat_map
       (fun rs_es =>
          assert_all_almost_equal (map VComplex (fst rs_es))
            (map VFloat (snd rs_es)) 3)
       (combine (map (fun i => py_slice_step (firstn n output) i step)
                   indices)
          expected)).
Proof.
  revert expected. induction indices as [|i indices IH]; intros expected H;
    [constructor|].
  destruct expected as [|es expected]; [constructor|].
  simpl in *. apply Forall_app in H. destruct H as [H1 H2].
  apply Forall_app. split; [|now apply IH].
  unfold py_slice_step.
  destruct (every_nth_firstn (Z.to_nat step) (Z.to_nat i) n output)
    as [m ->].
  now apply almost_equal_prefix.
Qed.

(** The reference values of [test_simple] do not depend on its inputs. *)
Lemma test_simple_reference :
  exists expected,
    forall ms tb,
      test_simple ms tb
      = Ok (compare_to_expected
              (map (fun i => py_slice_step (output tb) i 4) (py_range 0 4))
              expected tb ms (first_filter_signals 4 10)).
Proof.
  unfold test_simple. cbv zeta.
  match goal with
  | |- context [py_comprehension ?f ?l] =>
      destruct (py_comprehension f l) as [expected|e] eqn:E
  end.
  - exists expected. intros ms tb. reflexivity.
  - vm_compute in E. discriminate.
Qed.

(** X13.  The filterbank test compares the samples pairwise with [zip] and
    never asserts how many were captured: a run that passes still passes
    when the captured samples are cut short, down to none at all. *)
Theorem test_simple_accepts_truncated_output (ms : list Z)
  (tb : FilterbankTestBench) (n : nat) :
  run (test_simple ms tb) = Pass ->
  run (test_simple ms (truncated n tb)) = Pass.
Proof.
  destruct test_simple_reference as [expected Href].
  rewrite !Href, !run_ok_pass. unfold compare_to_expected.
  rewrite !Forall_app. intros [Hsamples Hrest].
  split; [|exact Hrest].
  now apply sample_assertions_prefix.
Qed.

Lemma test_simple_accepts_truncated_output_witness :
  run (test_simple some_ms (exact_bench some_ms)) = Pass /\
  run (test_simple some_ms (truncated 7 (exact_bench some_ms))) = Pass.
Proof.
  split; [exact exact_bench_passes|].
  exact (test_simple_accepts_truncated_output some_ms (exact_bench some_ms)
           7 exact_bench_passes).
Defined.

(** ** The FFT tests accept a design that echoes its input *)

Lemma complex_eqb_refl (c : complex) : complex_eqb c c = true.
Proof.
  unfold complex_eqb. apply andb_true_iff.
  split; unfold Qc_eq_bool; destruct (Qc_eq_dec _ _); congruence.
Qed.

Lemma agrees_with_itself (in_samples : list complex) :
  agrees_with in_samples {| out_samples := in_samples |}.
Proof.
  split; [reflexivity|]. simpl.
  induction in_samples as [|c cs IH]; constructor; [|exact IH].
  unfold almost_equal_3. simpl. unfold py_eq. simpl.
  now rewrite complex_eqb_refl.
Qed.

(** X14.  Both FFT tests pass on test benches whose output is the input,
    sample for sample. *)
Theorem fft_tests_accept_the_echo (in_samples : list complex) :
  let echo := {| out_samples := in_samples |} in
  run (Ok (TestDIT_test_one in_samples echo echo)) = Pass /\
  run (Ok (TestStage_test_one in_samples echo echo echo)) = Pass.
Proof.
  intros echo. unfold TestDIT_test_one, TestStage_test_one,
    TestDIT_expected, TestStage_expected.
  rewrite !run_ok_pass, !flat_map_confirm_data_holds.
  split; repeat constructor; apply agrees_with_itself.
Qed.

(** ** What [test_simple] checks *)

Lemma test_simple_expected (ms : list Z) (tb : FilterbankTestBench) :
  test_simple ms tb
  = Ok (compare_to_expected
          (map (fun i => py_slice_step (output tb) i 4) (py_range 0 4))
          reference_values tb ms (first_filter_signals 4 10)).
Proof.
  unfold test_simple. cbv zeta.
  match goal with
  | |- context [py_comprehension ?f ?l] =>
      assert (E : py_comprehension f l = Ok reference_values)
        by (vm_compute; reflexivity)
  end.
  rewrite E. reflexivity.
Qed.

(** The pairwise comparison of one stream, index by index. *)
Lemma almost_equal_pointwise (rs : list complex) (es : list Qc) :
  Forall (fun a => holds a = true)
    (assert_all_almost_equal (map VComplex rs) (map VFloat es) 3)
  <-> forall k r,
        (k < length es)%nat ->
        nth_error rs k = Some r ->
        holds (AssertAlmostEqual (VComplex r) (VFloat (nth k es 0)) 3) = true.
Proof.
  unfold assert_all_almost_equal. revert es.
  induction rs as [|r0 rs IH]; intros es.
  - simpl. split; [|constructor].
    intros _ k r _ Hk. now rewrite nth_error_nil in Hk.
  - destruct es as [|e es].
    + simpl. split; [|constructor]. intros _ k r Hk. inversion Hk.
    + simpl. rewrite Forall_cons_iff, IH. split.
      * intros [H0 Hrest] k r Hk Hr. destruct k as [|k].
        -- simpl in Hr. injection Hr as <-. exact H0.
        -- simpl in Hr. apply Hrest; [lia | exact Hr].
      * intros H. split.
        -- apply (H 0%nat r0); [lia | reflexivity].
        -- intros k r Hk Hr. apply (H (S k) r); [lia | exact Hr].
Qed.

Lemma holds_float_as_complex (r : complex) (e : Qc) (places : Z) :
  holds (AssertAlmostEqual (VComplex r) (VFloat e) places)
  = holds (AssertAlmostEqual (VComplex r) (VComplex (Complex e 0)) places).
Proof. reflexivity. Qed.

Lemma exact_output_real (p : nat) :
  (p < 40)%nat ->
  Complex (real (nth p exact_output (Complex 0 0))) 0
  = nth p exact_output (Complex 0 0).
Proof.
  intros Hp. unfold exact_output. cbv zeta.
  rewrite nth_map_seq by exact Hp. reflexivity.
Qed.

Lemma reference_values_nth (i k : nat) :
  (i < 4)%nat -> (k < 10)%nat ->
  nth k (nth i reference_values []) 0
  = real (nth (i + 4 * k) exact_output (Complex 0 0)).
Proof.
  intros Hi Hk. unfold reference_values.
  rewrite nth_map_seq by exact Hi. now rewrite nth_map_seq by exact Hk.
Qed.

(** The comparison of stream [i] of [output] with its reference values. *)
Lemma stream_compared (output : list complex) (i : nat) :
  (i < 4)%nat ->
  Forall (fun a => holds a = true)
    (assert_all_almost_equal
       (map VComplex (py_slice_step output (Z.of_nat i) 4))
       (map VFloat (nth i reference_values [])) 3)
  <-> forall k r,
        (k < 10)%nat ->
        nth_error output (i + 4 * k) = Some r ->
        holds (AssertAlmostEqual (VComplex r)
                 (VComplex (nth (i + 4 * k) exact_output (Complex 0 0))) 3)
        = true.
Proof.
  intros Hi. rewrite almost_equal_pointwise.
  assert (Hlen : length (nth i reference_values []) = 10%nat).
  { unfold reference_values. rewrite nth_map_seq by exact Hi.
    now rewrite length_map, length_seq. }
  rewrite Hlen. unfold py_slice_step.
  split; intros H k r Hk Hr.
  - specialize (H k r Hk).
    rewrite nth_error_every_nth, reference_values_nth in H by (auto; lia).
    rewrite Nat2Z.id in H.
    replace (i + k * Z.to_nat 4)%nat with (i + 4 * k)%nat in H by lia.
    specialize (H Hr).
    now rewrite holds_float_as_complex, exact_output_real in H by lia.
  - rewrite nth_error_every_nth, Nat2Z.id in Hr by lia.
    replace (i + k * Z.to_nat 4)%nat with (i + 4 * k)%nat in Hr by lia.
    specialize (H k r Hk Hr).
    rewrite reference_values_nth by assumption.
    now rewrite holds_float_as_complex, exact_output_real by lia.
Qed.

(** X23.  What [test_simple] checks, in full: the test passes exactly when
    the captured metadata are the input metadata, the captured first-filter
    sequence is the expected one, and each of the first 40 captured samples
    agrees with the exact output to 3 places.  Samples that were not
    captured, and samples after the first 40, are not looked at. *)
Theorem test_simple_verdict (ms : list Z) (tb : FilterbankTestBench) :
  run (test_simple ms tb) = Pass <->
  out_ms tb = ms /\
  out_ff tb = first_filter_signals 4 10 /\
  forall p r,
    (p < 40)%nat ->
    nth_error (output tb) p = Some r ->
    holds (AssertAlmostEqual (VComplex r)
             (VComplex (nth p exact_output (Complex 0 0))) 3) = true.
Proof.
  rewrite test_simple_expected, run_ok_pass. unfold compare_to_expected.
  rewrite !Forall_app.
  change (py_range 0 4) with (map Z.of_nat [0; 1; 2; 3]%nat).
  change reference_values
    with [nth 0 reference_values []; nth 1 reference_values [];
          nth 2 reference_values []; nth 3 reference_values []] at 1.
  cbn [map combine flat_map fst snd]. rewrite app_nil_r, !Forall_app.
  rewrite !stream_compared by lia.
  rewrite !Forall_cons_iff, !holds_equal_len. split.
  - intros [[H0 [H1 [H2 H3]]] [[Hlm _] [Hms [[Hlf _] Hff]]]].
    apply assert_all_equal_holds in Hms; [|exact Hlm].
    apply assert_all_equal_holds in Hff; [|exact Hlf].
    split; [exact Hms|]. split; [exact Hff|].
    intros p r Hp Hr.
    assert (Ep : p = (p mod 4 + 4 * (p / 4))%nat)
      by (pose proof (Nat.div_mod_eq p 4); lia).
    assert (Hk : (p / 4 < 10)%nat) by (apply Nat.Div0.div_lt_upper_bound; lia).
    pose proof (Nat.mod_upper_bound p 4 ltac:(lia)) as Hi.
    rewrite Ep in Hr |- *.
    destruct (p mod 4)%nat as [|[|[|[|i]]]]; [| | | |lia].
    + now apply H0.
    + now apply H1.
    + now apply H2.
    + now apply H3.
  - intros [Hms [Hff Hsamples]].
    split; [|split; [split; [now rewrite Hms | constructor]|split;
      [apply assert_all_equal_holds; [now rewrite Hms | exact Hms]|split;
        [split; [now rewrite Hff | constructor]
        |apply assert_all_equal_holds; [now rewrite Hff | exact Hff]]]]].
    repeat split; intros k r Hk Hr; apply Hsamples; try exact Hr; lia.
Qed.

(** ** The driver [get_first_filter] *)

Lemma get_first_filter_from (edges : list clock_edge) (recorded : list Z) :
  fold_left get_first_filter_run edges recorded
  = recorded ++ map first_filter (filter out_nd edges).
Proof.
  revert recorded. induction edges as [|edge edges IH]; intros recorded; simpl.
  - now rewrite app_nil_r.
  - rewrite IH. unfold get_first_filter_run.
    destruct (out_nd edge); simpl; [now rewrite <- app_assoc | reflexivity].
Qed.

(** X15.  The driver records the first-filter signal at the clock edges
    where the output is valid, one value for each such edge and in their
    order; the other edges leave no trace. *)
Theorem get_first_filter_records_valid_edges (edges : list clock_edge) :
  get_first_filter edges = map first_filter (filter out_nd edges).
Proof. unfold get_first_filter. now rewrite get_first_filter_from. Qed.

(** ** [atest_randominput] *)

Section ConvolveTotal.

Context {A : Type} `{Number A}.

(** [convolve] never raises. *)
Lemma convolve_returns (data taps : list A) :
  exists out, convolve data taps = Ok out.
Proof.
  destruct taps as [|t taps'] eqn:E.
  - eexists. apply convolve_nil_taps.
  - rewrite <- E. eexists. apply convolve_window_sums.
    rewrite E. discriminate.
Qed.

Lemma comprehension_convolve_returns {B : Type} (f : B -> list A)
  (g : B -> list A) (l : list B) :
  exists outs,
    py_comprehension (fun dt => convolve (f dt) (g dt)) l = Ok outs.
Proof.
  induction l as [|x l [outs IH]]; simpl; [eauto|].
  destruct (convolve_returns (f x) (g x)) as [out ->]. simpl.
  rewrite IH. simpl. eauto.
Qed.

End ConvolveTotal.

Lemma compare_to_expected_complex_pass (received expected : list (list complex))
  (tb : FilterbankTestBench) (ms ffs : list Z) :
  Forall (fun a => holds a = true)
    (compare_to_expected_complex received expected tb ms ffs) ->
  out_ms tb = ms /\ out_ff tb = ffs.
Proof.
  unfold compare_to_expected_complex. rewrite !Forall_app.
  intros [_ [Hlm [Hms [Hlf Hff]]]].
  apply Forall_inv in Hlm. apply holds_equal_len in Hlm.
  apply Forall_inv in Hlf. apply holds_equal_len in Hlf.
  split; now apply assert_all_equal_holds.
Qed.

(** The body of the test after a normal return of [scale_taps]. *)
Lemma atest_randominput_body (data : list complex) (ms : list Z)
  (taps scaledtaps : list (list Qc)) (M : Qc) (tb : FilterbankTestBench) :
  scale_taps taps = Ok (scaledtaps, M) ->
  exists received expected,
    atest_randominput data ms taps tb
    = Ok (compare_to_expected_complex received expected tb ms
            (first_filter_signals 5 50)).
Proof.
  intros Hs. unfold atest_randominput. cbv zeta. rewrite Hs. simpl bind.
  match goal with
  | |- context [py_comprehension ?f ?l] =>
      destruct (comprehension_convolve_returns
                  (fun dt : list complex * list Qc => fst dt)
                  (fun dt => map complex_of_float (snd dt)) l) as [outs Houts]
  end.
  rewrite Houts. simpl. eauto.
Qed.


(** X17.  A run of [atest_randominput] passes only if the captured metadata
    are the drawn metadata and the captured first-filter sequence is the
    block of a 1 and four zeros repeated 50 times, both in length and
    element for element. *)
Theorem atest_randominput_exact_streams (data : list complex) (ms : list Z)
  (taps : list (list Qc)) (tb : FilterbankTestBench) :
  run (atest_randominput data ms taps tb) = Pass ->
  out_ms tb = ms /\
  out_ff tb = concat (repeat [1; 0; 0; 0; 0]%Z 50).
Proof.
  intros Hpass. apply run_pass in Hpass.
  destruct Hpass as [assertions [Hbody Hall]].
  destruct (scale_taps taps) as [[scaledtaps M]|e] eqn:Hs.
  - destruct (atest_randominput_body data ms taps scaledtaps M tb Hs)
      as [received [expected Heq]].
    rewrite Heq in Hbody. injection Hbody as <-.
    apply compare_to_expected_complex_pass in Hall. exact Hall.
  - unfold atest_randominput in Hbody. cbv zeta in Hbody.
    rewrite Hs in Hbody. discriminate.
Qed.

Lemma exact_randominput_bench_passes :
  run (atest_randominput some_samples some_ms_250 some_taps_5x10
         (exact_randominput_bench some_samples some_ms_250 some_taps_5x10))
  = Pass.
Proof. vm_compute. reflexivity. Qed.

(** A wrong sample fails the test. *)
Example wrong_sample_fails :
  let tb :=
    exact_randominput_bench some_samples some_ms_250 some_taps_5x10 in
  run (atest_randominput some_samples some_ms_250 some_taps_5x10
         {| output := Complex 1 1 :: tl (output tb);
            out_ms := out_ms tb; out_ff := out_ff tb |})
  = Fail.
Proof. vm_compute. reflexivity. Qed.

(** Taps that are all zero end the test in an error. *)
Example zero_taps_error :
  run (atest_randominput some_samples some_ms_250
         (repeat (repeat 0 10) 5)
         (exact_randominput_bench some_samples some_ms_250 some_taps_5x10))
  = Error ZeroDivisionError.
Proof. vm_compute. reflexivity. Qed.

(** ** The statements on concrete inputs *)

Lemma convolve_causal_witness :
  [Q2Qc 1; Q2Qc 10] <> [] /\
  exists out,
    convolve [Q2Qc 1; Q2Qc 2; Q2Qc 3] [Q2Qc 1; Q2Qc 10] = Ok out /\
    convolve (firstn 2 [Q2Qc 1; Q2Qc 2; Q2Qc 3]) [Q2Qc 1; Q2Qc 10]
    = Ok (firstn 2 out).
Proof.
  assert (Htaps : [Q2Qc 1; Q2Qc 10] <> []) by discriminate.
  split; [exact Htaps|].
  exact (convolve_causal [Q2Qc 1; Q2Qc 2; Q2Qc 3] [Q2Qc 1; Q2Qc 10] 2 Htaps).
Defined.

Lemma convolve_linear_witness :
  length [Q2Qc 1; Q2Qc 2; Q2Qc 3] = length [Q2Qc 5; Q2Qc 0; - Q2Qc 1] /\
  exists out_x out_y,
    convolve [Q2Qc 1; Q2Qc 2; Q2Qc 3] [Q2Qc 1; Q2Qc 10] = Ok out_x /\
    convolve [Q2Qc 5; Q2Qc 0; - Q2Qc 1] [Q2Qc 1; Q2Qc 10] = Ok out_y /\
    convolve
      (linear_combination (Q2Qc 2) (Q2Qc 3) [Q2Qc 1; Q2Qc 2; Q2Qc 3]
         [Q2Qc 5; Q2Qc 0; - Q2Qc 1])
      [Q2Qc 1; Q2Qc 10]
    = Ok (linear_combination (Q2Qc 2) (Q2Qc 3) out_x out_y).
Proof.
  assert (Hlen : length [Q2Qc 1; Q2Qc 2; Q2Qc 3]
                 = length [Q2Qc 5; Q2Qc 0; - Q2Qc 1]) by reflexivity.
  split; [exact Hlen|].
  exact (convolve_linear (Q2Qc 2) (Q2Qc 3) [Q2Qc 1; Q2Qc 2; Q2Qc 3]
           [Q2Qc 5; Q2Qc 0; - Q2Qc 1] [Q2Qc 1; Q2Qc 10] Hlen).
Defined.

Lemma scale_taps_keeps_shape_witness :
  scale_taps some_tapss
  = Ok (map (map (fun t => t / fold_left update_max some_tapss 0))
          some_tapss,
        fold_left update_max some_tapss 0) /\
  map (@length Qc)
    (map (map (fun t => t / fold_left update_max some_tapss 0)) some_tapss)
  = map (@length Qc) some_tapss /\
  0 <= fold_left update_max some_tapss 0.
Proof.
  split; [exact some_tapss_scaled|].
  exact (scale_taps_keeps_shape some_tapss _ _ some_tapss_scaled).
Defined.

Lemma scale_taps_idempotent_witness :
  scale_taps some_tapss
  = Ok (map (map (fun t => t / fold_left update_max some_tapss 0))
          some_tapss,
        fold_left update_max some_tapss 0) /\
  scale_taps
    (map (map (fun t => t / fold_left update_max some_tapss 0)) some_tapss)
  = Ok (map (map (fun t => t / fold_left update_max some_tapss 0))
          some_tapss,
        if Qc_eq_bool (fold_left update_max some_tapss 0) 0 then 0 else 1).
Proof.
  split; [exact some_tapss_scaled|].
  exact (scale_taps_idempotent some_tapss _ _ some_tapss_scaled).
Defined.

Lemma scaled_taps_scale_the_response_witness :
  scale_taps some_tapss
  = Ok (map (map (fun t => t / fold_left update_max some_tapss 0))
          some_tapss,
        fold_left update_max some_tapss 0) /\
  Forall2
    (fun taps chantaps =>
       exists out,
         convolve [Q2Qc 1; - Q2Qc 1; Q2Qc (1 # 2)] taps = Ok out /\
         convolve [Q2Qc 1; - Q2Qc 1; Q2Qc (1 # 2)] chantaps
         = Ok (map (fun v => v / fold_left update_max some_tapss 0) out))
    some_tapss
    (map (map (fun t => t / fold_left update_max some_tapss 0)) some_tapss).
Proof.
  split; [exact some_tapss_scaled|].
  exact (scaled_taps_scale_the_response [Q2Qc 1; - Q2Qc 1; Q2Qc (1 # 2)]
           some_tapss _ _ some_tapss_scaled).
Defined.

Lemma samples_within_1 :
  Forall (fun d => Qcabs d <= 1) [Q2Qc 1; - Q2Qc 1; Q2Qc (1 # 2)].
Proof. repeat constructor; vm_compute; discriminate. Qed.

Lemma scaled_taps_prevent_overflow_witness :
  0 <= 1 /\
  Forall (fun d => Qcabs d <= 1) [Q2Qc 1; - Q2Qc 1; Q2Qc (1 # 2)] /\
  scale_taps some_tapss
  = Ok (map (map (fun t => t / fold_left update_max some_tapss 0))
          some_tapss,
        fold_left update_max some_tapss 0) /\
  Forall
    (fun chantaps =>
       exists out,
         convolve [Q2Qc 1; - Q2Qc 1; Q2Qc (1 # 2)] chantaps = Ok out /\
         Forall (fun v => Qcabs v <= 1) out)
    (map (map (fun t => t / fold_left update_max some_tapss 0)) some_tapss).
Proof.
  assert (HB : 0 <= 1) by (vm_compute; discriminate).
  split; [exact HB|]. split; [exact samples_within_1|].
  split; [exact some_tapss_scaled|].
  exact (scaled_taps_prevent_overflow [Q2Qc 1; - Q2Qc 1; Q2Qc (1 # 2)]
           some_tapss _ _ 1 HB samples_within_1 some_tapss_scaled).
Defined.

Lemma complex_samples_within_1 :
  Forall (fun d => Qcabs (real d) <= 1 /\ Qcabs (imag d) <= 1)
    [Complex 1 (- Q2Qc (1 # 2)); Complex (- Q2Qc (3 # 4)) 0].
Proof. repeat constructor; vm_compute; discriminate. Qed.

Lemma scaled_taps_prevent_overflow_complex_witness :
  0 <= 1 /\
  Forall (fun d => Qcabs (real d) <= 1 /\ Qcabs (imag d) <= 1)
    [Complex 1 (- Q2Qc (1 # 2)); Complex (- Q2Qc (3 # 4)) 0] /\
  scale_taps some_tapss
  = Ok (map (map (fun t => t / fold_left update_max some_tapss 0))
          some_tapss,
        fold_left update_max some_tapss 0) /\
  Forall
    (fun chantaps =>
       exists out,
         convolve [Complex 1 (- Q2Qc (1 # 2)); Complex (- Q2Qc (3 # 4)) 0]
           (map complex_of_float chantaps) = Ok out /\
         Forall (fun v => Qcabs (real v) <= 1 /\ Qcabs (imag v) <= 1) out)
    (map (map (fun t => t / fold_left update_max some_tapss 0)) some_tapss).
Proof.
  assert (HB : 0 <= 1) by (vm_compute; discriminate).
  split; [exact HB|]. split; [exact complex_samples_within_1|].
  split; [exact some_tapss_scaled|].
  exact (scaled_taps_prevent_overflow_complex
           [Complex 1 (- Q2Qc (1 # 2)); Complex (- Q2Qc (3 # 4)) 0]
           some_tapss _ _ 1 HB complex_samples_within_1 some_tapss_scaled).
Defined.

Lemma prune_zeros_undoes_padding_witness :
  Forall (fun z => negb (z =? 0)%Z = false) [0; 0]%Z /\
  Forall (fun z => negb (z =? 0)%Z = false) [0%Z]%list /\
  trimmed (fun z => negb (z =? 0)%Z) [3; 0; 4]%Z /\
  prune_zeros (fun z => negb (z =? 0)%Z) ([0; 0] ++ [3; 0; 4] ++ [0])%Z
  = Ok [3; 0; 4]%Z.
Proof.
  assert (Hpre : Forall (fun z => negb (z =? 0)%Z = false) [0; 0]%Z)
    by (repeat constructor).
  assert (Hsuf : Forall (fun z => negb (z =? 0)%Z = false) [0%Z]%list)
    by (repeat constructor).
  assert (Hr : trimmed (fun z => negb (z =? 0)%Z) [3; 0; 4]%Z)
    by (split; reflexivity).
  split; [exact Hpre|]. split; [exact Hsuf|]. split; [exact Hr|].
  exact (prune_zeros_undoes_padding Z (fun z => negb (z =? 0)%Z)
           [0; 0]%Z [3; 0; 4]%Z [0%Z]%list Hpre Hsuf Hr).
Defined.

Lemma prune_zeros_idempotent_witness :
  prune_zeros (fun z => negb (z =? 0)%Z) [0; 3; 0; 4; 0]%Z = Ok [3; 0; 4]%Z /\
  prune_zeros (fun z => negb (z =? 0)%Z) [3; 0; 4]%Z = Ok [3; 0; 4]%Z.
Proof.
  assert (H : prune_zeros (fun z => negb (z =? 0)%Z) [0; 3; 0; 4; 0]%Z
              = Ok [3; 0; 4]%Z) by reflexivity.
  split; [exact H|].
  exact (prune_zeros_idempotent Z (fun z => negb (z =? 0)%Z)
           [0; 3; 0; 4; 0]%Z [3; 0; 4]%Z H).
Defined.

Lemma prune_zeros_ignores_zero_padding_witness :
  Forall (fun z => negb (z =? 0)%Z = false) [0; 0]%Z /\
  Forall (fun z => negb (z =? 0)%Z = false) [0%Z]%list /\
  prune_zeros (fun z => negb (z =? 0)%Z) ([0; 0] ++ [0; 3; 0; 4] ++ [0])%Z
  = prune_zeros (fun z => negb (z =? 0)%Z) [0; 3; 0; 4]%Z.
Proof.
  assert (Hpre : Forall (fun z => negb (z =? 0)%Z = false) [0; 0]%Z)
    by (repeat constructor).
  assert (Hsuf : Forall (fun z => negb (z =? 0)%Z = false) [0%Z]%list)
    by (repeat constructor).
  split; [exact Hpre|]. split; [exact Hsuf|].
  exact (prune_zeros_ignores_zero_padding Z (fun z => negb (z =? 0)%Z)
           [0; 0]%Z [0; 3; 0; 4]%Z [0%Z]%list Hpre Hsuf).
Defined.

Lemma atest_randominput_exact_streams_witness :
  let tb :=
    exact_randominput_bench some_samples some_ms_250 some_taps_5x10 in
  run (atest_randominput some_samples some_ms_250 some_taps_5x10 tb) = Pass /\
  out_ms tb = some_ms_250 /\
  out_ff tb = concat (repeat [1; 0; 0; 0; 0]%Z 50).
Proof.
  intros tb. split; [exact exact_randominput_bench_passes|].
  exact (atest_randominput_exact_streams some_samples some_ms_250
           some_taps_5x10 tb exact_randominput_bench_passes).
Defined.

